(** * FedT4T: verification of [main.py]

    A shallow embedding of the federated-learning driver [main.py]: the
    metric aggregation callback [weighted_average], the evaluation loop
    [test], the module-level statements that build and shuffle the list of
    game strategies, [sow_seed], [get_mnist_dataloaders], [get_params],
    [client_fn], [server_fn] and [main]; and, off the path from [main], the
    training loop [train] with [run_centralised] and the choice of the
    images that [visualise_n_random_examples] displays (the drawing itself
    is left out).

    Python values are modelled as follows.
    - [int] is [Z] (unbounded).
    - [float] is a carrier [F] with the operations of the class [Arith].
      The instance [binary64] is IEEE-754 double precision as CPython
      computes it, on primitive floats: every operation rounds to nearest
      even, converting an [int] that is too large raises [OverflowError].
      The instance [exact] is the field of rationals, the arithmetic in
      which the algebraic reading of an average holds.
    - [sum] is the left fold of [+] from the [int] 0: the documented
      meaning, and what CPython computes up to version 3.11 (later versions
      add floats with compensation; on a list of one element the two
      agree).
    - a [dict] with string keys is a [gmap string _]; a list is a [list],
      indexed as Python does.
    - an object that is mutated in place lives in a store and is referred
      to by its key.
    - an exception is a value [Raise e] of the type [result].

    Code of other modules and libraries ([random], [torch], [axelrod],
    [flwr], [flwr_datasets], [model]) is taken through the classes
    [Random], [Torch], [Training] and [Libraries]; their contracts are the
    classes [RandomLaws], [TorchLaws] and [TrainingLaws]. *)

From Stdlib Require Import PrimFloat SpecFloat FloatOps.
From Stdlib Require Import QArith Qcanon.
From stdpp Require Import gmap strings list pretty.

#[local] Set Warnings "-inexact-float".
#[local] Close Scope Q_scope.
#[local] Open Scope Z_scope.

(** ** Exceptions *)

Inductive exn : Type :=
| KeyError (key : string)
| IndexError
| ZeroDivisionError
| OverflowError.

Inductive result (A : Type) : Type :=
| Ok (a : A)
| Raise (e : exn).

Arguments Ok {A} a.
Arguments Raise {A} e.

#[global] Instance result_ret : MRet result := λ A, Ok.
#[global] Instance result_bind : MBind result := λ A B f r,
  match r with
  | Ok a => f a
  | Raise e => Raise e
  end.

Definition raises {A} (r : result A) : Prop :=
  match r with
  | Ok _ => False
  | Raise _ => True
  end.

(** ** Float arithmetic *)

(** What the program needs of Python's [float]: conversion from [int]
    (which raises [OverflowError] when [fl_int_overflow] holds), the three
    operations, true division of two [int]s (one rounding of the exact
    quotient; [OverflowError] when [fl_int_div_overflow] holds), the
    literal [0.0] and the comparison [<=]. *)
Class Arith (F : Type) : Type := {
  fl_zero : F;
  fl_of_int : Z → F;
  fl_int_overflow : Z → bool;
  fl_add : F → F → F;
  fl_mul : F → F → F;
  fl_div : F → F → F;
  fl_int_div : Z → Z → F;
  fl_int_div_overflow : Z → Z → bool;
  fl_leb : F → F → bool;
}.

(** IEEE-754 binary64, round to nearest even. *)
Definition sf_of_int (z : Z) : spec_float :=
  match z with
  | Z0 => S754_zero false
  | Zpos p => S754_finite false p 0
  | Zneg p => S754_finite true p 0
  end.

Definition b64_of_int (z : Z) : float :=
  SF2Prim (binary_normalize prec emax z 0 false).

Definition b64_int_div (a b : Z) : float :=
  SF2Prim (SFdiv prec emax (sf_of_int a) (sf_of_int b)).

#[global] Instance binary64 : Arith float := {|
  fl_zero := 0%float;
  fl_of_int := b64_of_int;
  fl_int_overflow z := is_infinity (b64_of_int z);
  fl_add := PrimFloat.add;
  fl_mul := PrimFloat.mul;
  fl_div := PrimFloat.div;
  fl_int_div := b64_int_div;
  fl_int_div_overflow a b := is_infinity (b64_int_div a b);
  fl_leb := PrimFloat.leb;
|}.

(** Exact rational arithmetic: no rounding and no overflow. *)
#[global] Instance exact : Arith Qc := {|
  fl_zero := Qc_of_Z 0;
  fl_of_int := Qc_of_Z;
  fl_int_overflow _ := false;
  fl_add := Qcplus;
  fl_mul := Qcmult;
  fl_div := Qcdiv;
  fl_int_div a b := Qcdiv (Qc_of_Z a) (Qc_of_Z b);
  fl_int_div_overflow _ _ := false;
  fl_leb x y := bool_decide (Qcle x y);
|}.

(** ** Numbers at run time *)

(** [Scalar], the type of a metric value (flwr's
    [Union[bool, bytes, float, int, str]]), restricted to its numeric
    members; [bool] is a subclass of [int]. *)
Inductive scalar (F : Type) : Type :=
| SBool (b : bool)
| SInt (z : Z)
| SFloat (x : F).

Arguments SBool {F} b.
Arguments SInt {F} z.
Arguments SFloat {F} x.

(** The numbers the arithmetic operators produce. *)
Inductive num (F : Type) : Type :=
| NInt (z : Z)
| NFloat (x : F).

Arguments NInt {F} z.
Arguments NFloat {F} x.

Abbreviation Metrics F := (gmap string (scalar F)).

Section Python.
Context {F : Type} `{!Arith F}.

(** [float(z)] for an [int] operand of a mixed operation. *)
Definition py_float (z : Z) : result F :=
  if fl_int_overflow z then Raise OverflowError else Ok (fl_of_int z).

(** [n * v] with [n] an [int]. *)
Definition py_mul (n : Z) (v : scalar F) : result (num F) :=
  match v with
  | SBool b => Ok (NInt (n * Z.b2z b))
  | SInt z => Ok (NInt (n * z))
  | SFloat x => fn ← py_float n; Ok (NFloat (fl_mul fn x))
  end.

(** [a + b]. *)
Definition py_add (a b : num F) : result (num F) :=
  match a, b with
  | NInt x, NInt y => Ok (NInt (x + y))
  | NInt x, NFloat y => fx ← py_float x; Ok (NFloat (fl_add fx y))
  | NFloat x, NInt y => fy ← py_float y; Ok (NFloat (fl_add x fy))
  | NFloat x, NFloat y => Ok (NFloat (fl_add x y))
  end.

(** [sum(l)]: the left fold of [+] that starts from the [int] 0. *)
Fixpoint sum_from (acc : num F) (l : list (num F)) : result (num F) :=
  match l with
  | [] => Ok acc
  | x :: l' => acc' ← py_add acc x; sum_from acc' l'
  end.

Definition py_sum (l : list (num F)) : result (num F) := sum_from (NInt 0) l.

(** [sum] of a list of [int]s is an [int]. *)
Definition py_sum_int (l : list Z) : Z := fold_left Z.add l 0.

(** [a / d] with [d] an [int]: true division, always a [float]. *)
Definition py_truediv (a : num F) (d : Z) : result F :=
  if decide (d = 0) then Raise ZeroDivisionError
  else match a with
       | NInt x =>
           if fl_int_div_overflow x d then Raise OverflowError
           else Ok (fl_int_div x d)
       | NFloat x => fd ← py_float d; Ok (fl_div x fd)
       end.

(** [m[key]]. *)
Definition py_getitem {V} (m : gmap string V) (key : string) : result V :=
  match m !! key with
  | Some v => Ok v
  | None => Raise (KeyError key)
  end.

(** [weighted_average] (main.py, lines 180-186). *)
Definition weighted_average (metrics : list (Z * Metrics F)) : result (Metrics F) :=
  accuracies ← mapM (λ '(num_examples, m),
                       a ← py_getitem m "accuracy"; py_mul num_examples a) metrics;
  let examples := map (λ '(num_examples, _), num_examples) metrics in
  s ← py_sum accuracies;
  q ← py_truediv s (py_sum_int examples);
  Ok {[ "accuracy" := SFloat q ]}.

End Python.


(** ** What the claims speak of *)

Section Aggregation.
Context {F : Type} `{!Arith F}.

(** [reported metrics nas]: client [i] reports [nas !! i = (n, a)], the
    example count [n] and the float [a] stored under "accuracy". *)
Definition reported (metrics : list (Z * Metrics F)) (nas : list (Z * F)) : Prop :=
  Forall2 (λ p q, p.1 = q.1 ∧ p.2 !! "accuracy" = Some (SFloat q.2)) metrics nas.

(** The [int]s that are converted to [float] all fit. *)
Definition fits (zs : list Z) : Prop :=
  Forall (λ z, fl_int_overflow z = false) zs.

(** Sum of the example counts. *)
Definition total (nas : list (Z * F)) : Z := foldr (λ q s, q.1 + s) 0 nas.

(** Sum over [i] of [n_i * a_i], in the order in which [sum] adds. *)
Definition weighted_sum (nas : list (Z * F)) : F :=
  fold_left (λ s q, fl_add s (fl_mul (fl_of_int q.1) q.2)) nas (fl_of_int 0).

Definition weighted_mean (nas : list (Z * F)) : F :=
  fl_div (weighted_sum nas) (fl_of_int (total nas)).

(** Smallest and largest element of a list, by [<=]. *)
Definition fl_min (x y : F) : F := if fl_leb x y then x else y.
Definition fl_max (x y : F) : F := if fl_leb x y then y else x.

Definition minimum (a : F) (l : list F) : F := foldr fl_min a l.
Definition maximum (a : F) (l : list F) : F := foldr fl_max a l.

Definition between_extremes (r : F) (l : list F) : Prop :=
  match l with
  | [] => False
  | a :: l' => fl_leb (minimum a l') r = true ∧ fl_leb r (maximum a l') = true
  end.

End Aggregation.

(** The weight of a client with [n] of the [N] examples, and the convex
    combination of the accuracies under these weights. *)
Definition weight (N n : Z) : Qc := (Qc_of_Z n / Qc_of_Z N)%Qc.

Definition weights (nas : list (Z * Qc)) : list Qc :=
  map (λ q, weight (total nas) q.1) nas.

Definition Qc_sum (l : list Qc) : Qc := foldr Qcplus (Qc_of_Z 0) l.

Definition convex_combination (nas : list (Z * Qc)) : Qc :=
  Qc_sum (map (λ q, weight (total nas) q.1 * q.2)%Qc nas).


(** ** Data loaders and evaluation *)

(** [torch.utils.data.DataLoader(dataset, batch_size, shuffle)]; the
    constructor rejects a batch size that is not positive, and
    [drop_last] keeps its default [False]. *)
Record DataLoader (X : Type) : Type := {
  dataset : list X;
  batch_size : positive;
  shuffle : bool;
}.

Arguments dataset {X} _.
Arguments batch_size {X} _.
Arguments shuffle {X} _.

(** Consecutive batches of [n] elements, the last one possibly shorter. *)
Fixpoint chunks {X} (fuel n : nat) (l : list X) : list (list X) :=
  match fuel, l with
  | O, _ | _, [] => []
  | S fuel', _ => take n l :: chunks fuel' n (drop n l)
  end.

(** A network: its [state_dict] (parameters and buffers) and the mode flag
    that [net.train()] and [net.eval()] set. *)
Record Module (P : Type) : Type := {
  state_dict : P;
  training : bool;
}.

Arguments state_dict {P} _.
Arguments training {P} _.

(** What [test] touches: the network and autograd's global grad mode. *)
Record torch_state (P : Type) : Type := {
  net : Module P;
  grad_enabled : bool;
}.

Arguments net {P} _.
Arguments grad_enabled {P} _.

(** The parts of torch and of [model.Net] that [test] calls.
    - [forward mode p images] is [net(images)]: the rows of outputs and the
      state of the network after the call ([mode] is the [training] flag;
      in training mode a forward pass may update buffers);
    - [logits p x] is the row a network in evaluation mode computes for the
      single example [x];
    - [argmax row] is the index [torch.max(outputs, 1)] picks in a row;
    - [cross_entropy outputs labels] is
      [CrossEntropyLoss()(outputs, labels).item()];
    - [sampler l] is the order in which a shuffling loader visits [l]. *)
Class Torch (F image P : Type) : Type := {
  forward : bool → P → list image → list (list F) * P;
  logits : P → image → list F;
  argmax : list F → Z;
  cross_entropy : list (list F) → list Z → F;
  sampler : list (image * Z) → list (image * Z);
}.

(** The contract of these parts: in evaluation mode the forward pass works
    example by example and leaves the state of the network alone, and a
    shuffling loader visits every example once. *)
Class TorchLaws (F image P : Type) `{!Torch F image P} : Prop := {
  forward_eval : ∀ p images, forward false p images = (map (logits p) images, p);
  sampler_perm : ∀ l, sampler l ≡ₚ l;
}.

Section Evaluation.
Context {F image P : Type} `{!Arith F} `{!Torch F image P}.

(** [for batch in loader]: the batches a loader yields. *)
Definition batches (loader : DataLoader (image * Z)) : list (list (image * Z)) :=
  let order := if shuffle loader then sampler (dataset loader) else dataset loader in
  chunks (length order) (Pos.to_nat (batch_size loader)) order.

(** [(predicted == labels).sum().item()]. *)
Definition count_equal (predicted labels : list Z) : Z :=
  Z.of_nat (length (filter (λ p, p.1 = p.2) (zip predicted labels))).

(** One iteration of the loop of [test] (lines 97-101). *)
Definition test_batch (acc : Z * F * Module P) (batch : list (image * Z))
    : Z * F * Module P :=
  let '(correct, loss, net) := acc in
  let images := map fst batch in
  let labels := map snd batch in
  let '(outputs, p) := forward (training net) (state_dict net) images in
  let net := {| state_dict := p; training := training net |} in
  let loss := fl_add loss (cross_entropy outputs labels) in
  let predicted := map argmax outputs in
  let correct := correct + count_equal predicted labels in
  (correct, loss, net).

(** [test] (main.py, lines 90-103). *)
Definition test (testloader : DataLoader (image * Z)) (s : torch_state P)
    : result (F * F) * torch_state P :=
  let correct := 0 in
  let loss := fl_zero in
  (* net.eval() *)
  let net := {| state_dict := state_dict (net s); training := false |} in
  (* with torch.no_grad(): the previous grad mode is restored on exit *)
  let previous := grad_enabled s in
  let '(correct, loss, net) :=
    fold_left test_batch (batches testloader) (correct, loss, net) in
  let s' := {| net := net; grad_enabled := previous |} in
  (accuracy ← py_truediv (NInt correct) (Z.of_nat (length (dataset testloader)));
   Ok (loss, accuracy),
   s').

(** The number of examples of [l] that a network with state [p], in
    evaluation mode, classifies as labelled. *)
Definition correctly_classified (p : P) (l : list (image * Z)) : Z :=
  Z.of_nat (length (filter (λ x, argmax (logits p x.1) = x.2) l)).

(** The losses of the batches, added in the order of the loop. *)
Definition summed_loss (p : P) (bs : list (list (image * Z))) : F :=
  fold_left (λ loss b, fl_add loss (cross_entropy (map (logits p) (map fst b)) (map snd b)))
            bs fl_zero.

End Evaluation.

(** ** Module constants (lines 31-35) *)

Definition num_rounds : Z := 20.
Definition SEED : Z := 42.
Definition plot_label_distribution_over_clients : bool := false.
Definition strategy_mem_depth : Z := 1.

(** ** The [random] module *)

(** The global generator of [random]: [randbelow g n] draws a number below
    [n] and steps the generator, [rng_seed s] is the state that
    [random.seed(s)] installs. *)
Class Random (G : Type) : Type := {
  randbelow : G → nat → nat * G;
  rng_seed : Z → G;
}.

Class RandomLaws (G : Type) `{!Random G} : Prop := {
  randbelow_lt : ∀ g n, (0 < n)%nat → ((randbelow g n).1 < n)%nat;
}.

Section Shuffle.
Context {G : Type} `{!Random G} {A : Type}.

(** [x[i], x[j] = x[j], x[i]]. *)
Definition swap (i j : nat) (x : list A) : list A :=
  match x !! i, x !! j with
  | Some xi, Some xj => <[j := xi]> (<[i := xj]> x)
  | _, _ => x
  end.

(** The iterations [i, i-1, ..., 1] of the loop of [random.shuffle]:
    [for i in reversed(range(1, len(x))): j = randbelow(i + 1); swap]. *)
Fixpoint shuffle_from (i : nat) (x : list A) (g : G) : list A * G :=
  match i with
  | O => (x, g)
  | S i' =>
      let '(j, g) := randbelow g (i + 1) in
      shuffle_from i' (swap i j x) g
  end.

Definition random_shuffle (x : list A) (g : G) : list A * G :=
  shuffle_from (length x - 1) x g.

End Shuffle.

(** ** Strategies, partitioners and the module globals *)

(** An [axelrod] player: its class name and the seed [set_seed] stored. *)
Record Player : Type := {
  name : string;
  seed : option Z;
}.

Definition instantiate (class_name : string) : Player :=
  {| name := class_name; seed := None |}.

Definition set_seed (s : Z) (p : Player) : Player :=
  {| name := name p; seed := Some s |}.

Inductive partitioner : Type :=
| IidPartitioner (num_partitions : nat)
| DirichletPartitioner (num_partitions : nat) (alpha : float)
    (partition_by : string) (seed : Z) (min_partition_size : Z).

Definition num_partitions_of (p : partitioner) : nat :=
  match p with
  | IidPartitioner n => n
  | DirichletPartitioner n _ _ _ _ => n
  end.

Record FederatedDataset : Type := {
  fd_dataset : string;
  fd_partitioners : gmap string partitioner;
}.

(** The module globals. Players are objects: [players] is the store in
    which they live, the list [client_strategies] holds their keys, and
    [set_seed] updates a player in place. *)
Record globals (G : Type) : Type := {
  stdout : list string;
  random_state : G;
  numpy_seed : option Z;
  torch_seed : option Z;
  torch_deterministic : bool;
  players : gmap nat Player;
  client_strategies : list nat;
  NUM_PARTITIONS : nat;
  iid_partitioner : partitioner;
  dirichlet_partitioner : partitioner;
  fds : FederatedDataset;
}.

Arguments stdout {G} _.
Arguments random_state {G} _.
Arguments numpy_seed {G} _.
Arguments torch_seed {G} _.
Arguments torch_deterministic {G} _.
Arguments players {G} _.
Arguments client_strategies {G} _.
Arguments NUM_PARTITIONS {G} _.
Arguments iid_partitioner {G} _.
Arguments dirichlet_partitioner {G} _.
Arguments fds {G} _.

(** [str(n)] for an [int]. *)
Definition py_str (z : Z) : string := pretty z.

(** [l[i]] on a list: a negative index counts from the end. *)
Definition py_index {A} (l : list A) (i : Z) : result A :=
  let len := Z.of_nat (length l) in
  let k := if decide (i < 0) then i + len else i in
  if decide (0 ≤ k < len) then
    match l !! Z.to_nat k with
    | Some a => Ok a
    | None => Raise IndexError
    end
  else Raise IndexError.

(** What the program consumes from [axelrod], [flwr_datasets], [datasets],
    [torchvision], [model] and [flwr].
    - [memory_one] are the names of the classes returned by
      [axl.filtered_strategies] for [memory_depth = 1] over
      [axl.ordinary_strategies];
    - [load_partition fds id split] and [train_test_split d size seed] are
      the calls of the same names;
    - [pytorch_transforms] is [Compose([ToTensor(), Normalize(..)])];
    - [Net n t] is a freshly initialised [Net(num_classes=n)]: its weights
      are drawn from torch's global generator, found in the state [t], and
      the call leaves the generator in the state returned with the model;
      [state_dict_items] are the [items()] of the [state_dict()] of a
      model, each value as the array [val.cpu().numpy()];
    - [ndarrays_to_parameters] is flwr's conversion. *)
Class Libraries (raw image P ndarray Parameters T : Type) : Type := {
  memory_one : list string;
  load_partition : FederatedDataset → Z → string → result (list (raw * Z));
  train_test_split :
    list (raw * Z) → float → Z → result (list (raw * Z) * list (raw * Z));
  pytorch_transforms : raw → image;
  Net : Z → T → P * T;
  state_dict_items : P → list (string * ndarray);
  ndarrays_to_parameters : list ndarray → Parameters;
}.

(** [flwr.common.Context], as far as [client_fn] reads it. *)
Record Context : Type := {
  node_config : gmap string Z;
}.

(** What [FlowerClient(...)] is given. *)
Record FlowerClient (image : Type) : Type := {
  trainloader : DataLoader (image * Z);
  valloader : DataLoader (image * Z);
  ipd_strategy : nat;
  client_id : Z;
}.

Arguments trainloader {image} _.
Arguments valloader {image} _.
Arguments ipd_strategy {image} _.
Arguments client_id {image} _.

Record FedAvg (Parameters : Type) : Type := {
  fraction_fit : float;
  fraction_evaluate : float;
  evaluate_metrics_aggregation_fn :
    option (list (Z * Metrics float) → result (Metrics float));
  initial_parameters : option Parameters;
}.

Arguments fraction_fit {Parameters} _.
Arguments fraction_evaluate {Parameters} _.
Arguments evaluate_metrics_aggregation_fn {Parameters} _.
Arguments initial_parameters {Parameters} _.

(** [SimpleClientManager()]: no client is registered yet. *)
Record SimpleClientManager : Type := {
  clients : gmap string nat;
}.

Record Ipd_TournamentServer (Parameters : Type) : Type := {
  client_manager : SimpleClientManager;
  strategy : FedAvg Parameters;
}.

Arguments client_manager {Parameters} _.
Arguments strategy {Parameters} _.

Record ServerConfig : Type := {
  config_num_rounds : Z;
}.

Record ServerAppComponents (Parameters : Type) : Type := {
  server : Ipd_TournamentServer Parameters;
  config : ServerConfig;
}.

Arguments server {Parameters} _.
Arguments config {Parameters} _.

(** The arguments of the call of [run_simulation] (lines 235-237). *)
Record simulation (server_app client_app : Type) : Type := {
  sim_server_app : server_app;
  sim_client_app : client_app;
  num_supernodes : nat;
}.

Arguments sim_server_app {server_app client_app} _.
Arguments sim_client_app {server_app client_app} _.
Arguments num_supernodes {server_app client_app} _.

Section Program.
Context {G : Type} `{!Random G}.
Context {raw image P ndarray Parameters T : Type}.
Context `{!Libraries raw image P ndarray Parameters T}.

(** [sow_seed] (lines 37-41). *)
Definition sow_seed (s : Z) (st : globals G) : globals G :=
  {| stdout := stdout st;
     random_state := rng_seed s;
     numpy_seed := Some s;
     torch_seed := Some s;
     torch_deterministic := true;
     players := players st;
     client_strategies := client_strategies st;
     NUM_PARTITIONS := NUM_PARTITIONS st;
     iid_partitioner := iid_partitioner st;
     dirichlet_partitioner := dirichlet_partitioner st;
     fds := fds st |}.

(** [get_mnist_dataloaders] (lines 63-77). *)
Definition get_mnist_dataloaders
    (mnist_dataset : list (raw * Z) * list (raw * Z)) (batch_size : positive)
    : DataLoader (image * Z) * DataLoader (image * Z) :=
  let apply_transforms := map (λ '(img, label), (pytorch_transforms img, label)) in
  let mnist_train := apply_transforms mnist_dataset.1 in
  let mnist_test := apply_transforms mnist_dataset.2 in
  let trainloader :=
    {| dataset := mnist_train; batch_size := batch_size; shuffle := true |} in
  let testloader :=
    {| dataset := mnist_test; batch_size := batch_size; shuffle := false |} in
  (trainloader, testloader).

(** [get_params] (lines 105-107). *)
Definition get_params (model : P) : list ndarray :=
  map (λ '(_, val), val) (state_dict_items model).

(** The module-level statements (lines 191-206), run when the module is
    imported, from the state [g] in which the interpreter has left the
    generator of [random]. *)
Definition module_init (g : G) : globals G :=
  (* client_strategies = [s() for s in axl.filtered_strategies(...)] *)
  let created := map instantiate memory_one in
  (* client_strategies.append(axl.Random()) *)
  let created := created ++ [instantiate "Random"] in
  let players := map_seq 0 created in
  let client_strategies := seq 0 (length created) in
  (* random.shuffle(client_strategies) *)
  let '(client_strategies, g) := random_shuffle client_strategies g in
  let NUM_PARTITIONS := length client_strategies in
  let stdout :=
    [ "Strategies initialized: " +:+ py_str (Z.of_nat NUM_PARTITIONS) ] in
  let iid_partitioner := IidPartitioner NUM_PARTITIONS in
  let dirichlet_partitioner :=
    DirichletPartitioner NUM_PARTITIONS 0.1 "label" SEED 0 in
  let fds :=
    {| fd_dataset := "ylecun/mnist";
       fd_partitioners := {[ "train" := dirichlet_partitioner ]} |} in
  {| stdout := stdout;
     random_state := g;
     numpy_seed := None;
     torch_seed := None;
     torch_deterministic := false;
     players := players;
     client_strategies := client_strategies;
     NUM_PARTITIONS := NUM_PARTITIONS;
     iid_partitioner := iid_partitioner;
     dirichlet_partitioner := dirichlet_partitioner;
     fds := fds |}.

(** [client_fn] (lines 130-151). *)
Definition client_fn (context : Context) (st : globals G)
    : result (FlowerClient image * globals G) :=
  partition_id ← py_getitem (node_config context) "partition-id";
  partition ← load_partition (fds st) partition_id "train";
  partition_train_val ← train_test_split partition 0.1 SEED;
  let '(trainloader, testloader) :=
    get_mnist_dataloaders partition_train_val 32 in
  client_ipd_strat ← py_index (client_strategies st) partition_id;
  (* client_ipd_strat.set_seed(SEED) *)
  let players := alter (set_seed SEED) client_ipd_strat (players st) in
  let line :=
    "Init client(" +:+ py_str partition_id +:+ ") with strategy "
    +:+ default "" (name <$> players !! client_ipd_strat) in
  Ok ({| trainloader := trainloader;
         valloader := testloader;
         ipd_strategy := client_ipd_strat;
         client_id := partition_id |},
      {| stdout := stdout st ++ [ line ];
         random_state := random_state st;
         numpy_seed := numpy_seed st;
         torch_seed := torch_seed st;
         torch_deterministic := torch_deterministic st;
         players := players;
         client_strategies := client_strategies st;
         NUM_PARTITIONS := NUM_PARTITIONS st;
         iid_partitioner := iid_partitioner st;
         dirichlet_partitioner := dirichlet_partitioner st;
         fds := fds st |}).

(** [server_fn] (lines 153-177), called with torch's global generator in
    the state [t]: the components, and the state in which the generator is
    left. *)
Definition server_fn (context : Context) (t : T)
    : ServerAppComponents Parameters * T :=
  let '(model, t) := Net 10 t in
  let ndarrays := get_params model in
  let global_model_init := ndarrays_to_parameters ndarrays in
  let strategy :=
    {| fraction_fit := 0.5;
       fraction_evaluate := 0.1;
       evaluate_metrics_aggregation_fn := Some weighted_average;
       initial_parameters := Some global_model_init |} in
  let ipd_tournament_server :=
    {| client_manager := {| clients := ∅ |}; strategy := strategy |} in
  let config := {| config_num_rounds := num_rounds |} in
  ({| server := ipd_tournament_server; config := config |}, t).

(** [main] (lines 209-237); the plot is disabled by the module constant
    [plot_label_distribution_over_clients]. *)
Definition main (st : globals G) :=
  {| sim_server_app := server_fn;
     sim_client_app := client_fn;
     num_supernodes := NUM_PARTITIONS st |}.

(** The simulation engine calls [client_fn] once for every client it
    instantiates, round after round; a call that raises has changed
    nothing. *)
Fixpoint serve (contexts : list Context) (st : globals G) : globals G :=
  match contexts with
  | [] => st
  | context :: contexts' =>
      match client_fn context st with
      | Ok (_, st') => serve contexts' st'
      | Raise _ => serve contexts' st
      end
  end.

(** Every reference of [client_strategies] points to a player. *)
Definition bound (st : globals G) : Prop :=
  Forall (λ r, is_Some (players st !! r)) (client_strategies st).

(** The name of the strategy bound to the partition id [i]. *)
Definition strategy_name (st : globals G) (i : nat) : option string :=
  r ← client_strategies st !! i; name <$> players st !! r.

(** The seed that the strategy of a client holds. *)
Definition seed_given (c : FlowerClient image) (st : globals G) : option Z :=
  p ← players st !! ipd_strategy c; seed p.

(** The script: the module-level statements, then, under
    [if __name__ == '__main__'] (lines 240-242), [sow_seed(SEED)] and
    [main()]. *)
Definition script (g : G) :=
  let st := module_init g in
  let st := sow_seed SEED st in
  (main st, st).

End Program.

(** ** The round orchestrator *)

(** Modelled from the spec: the round loop of [Ipd_TournamentServer]
    (module [ipd_tournament_server]), which [server_fn] instantiates; the
    states and their order are those of the spec's Round Orchestrator. *)
Inductive orchestrator_state : Type :=
| INIT
| TOURNAMENT
| SELECT
| FIT_DISPATCH
| FIT_COLLECT
| AGGREGATE
| EVAL_DISPATCH
| EVAL_COLLECT
| METRIC_AGGREGATE
| NEXT_ROUND
| TERMINATE.

#[global] Instance orchestrator_state_eq_dec : EqDecision orchestrator_state.
Proof. solve_decision. Defined.

(** Modelled from the spec: the orchestrator is in a state and has
    completed [iterations] rounds. *)
Record orchestrator : Type := {
  state : orchestrator_state;
  iterations : Z;
}.

(** Modelled from the spec: one transition of the orchestrator configured
    with [rounds] rounds; [failure] tells whether an unrecoverable failure
    occurs in the current state. A round ends after [METRIC_AGGREGATE];
    [TERMINATE] is reached after [rounds] iterations or upon an
    unrecoverable failure. *)
Definition orchestrator_step (rounds : Z) (failure : bool) (o : orchestrator)
    : orchestrator :=
  let goto s := {| state := s; iterations := iterations o |} in
  if failure then goto TERMINATE
  else match state o with
       | INIT => goto TOURNAMENT
       | TOURNAMENT => goto SELECT
       | SELECT => goto FIT_DISPATCH
       | FIT_DISPATCH => goto FIT_COLLECT
       | FIT_COLLECT => goto AGGREGATE
       | AGGREGATE => goto EVAL_DISPATCH
       | EVAL_DISPATCH => goto EVAL_COLLECT
       | EVAL_COLLECT => goto METRIC_AGGREGATE
       | METRIC_AGGREGATE =>
           let done := iterations o + 1 in
           {| state := if decide (done < rounds) then NEXT_ROUND else TERMINATE;
              iterations := done |}
       | NEXT_ROUND => goto TOURNAMENT
       | TERMINATE => goto TERMINATE
       end.

(** Modelled from the spec: [k] transitions without failure. *)
Fixpoint orchestrator_run (rounds : Z) (k : nat) (o : orchestrator) : orchestrator :=
  match k with
  | O => o
  | S k' => orchestrator_run rounds k' (orchestrator_step rounds false o)
  end.

(** Modelled from the spec: the orchestrator starts in [INIT]. *)
Definition orchestrator_start : orchestrator :=
  {| state := INIT; iterations := 0 |}.

(** Modelled from the spec: the orchestrator runs with the configuration
    it is handed. *)
Definition orchestrate {Parameters} (c : ServerAppComponents Parameters) (k : nat)
    : orchestrator :=
  orchestrator_run (config_num_rounds (config c)) k orchestrator_start.

(** Modelled from the spec: the state within a round, [r] transitions after [TOURNAMENT], for [r] up to 7. *)
Definition within_round (r : nat) : orchestrator_state :=
  match r with
  | 0 => TOURNAMENT
  | 1 => SELECT
  | 2 => FIT_DISPATCH
  | 3 => FIT_COLLECT
  | 4 => AGGREGATE
  | 5 => EVAL_DISPATCH
  | 6 => EVAL_COLLECT
  | _ => METRIC_AGGREGATE
  end%nat.

(** ** A sample environment *)

(** A generator that replays a tape of draws; [random.seed(s)] installs
    the tape of the seed. *)
Definition tape_below (g : list nat) (n : nat) : nat * list nat :=
  match g with
  | [] => (O, [])
  | t :: g' => ((t `mod` n)%nat, g')
  end.

#[global] Instance tape_random : Random (list nat) := {|
  randbelow := tape_below;
  rng_seed s := replicate 64 (Z.to_nat s);
|}.

(** Libraries that serve two memory-one strategies, partitions of four
    examples and a network with one parameter, which a counter generates. *)
#[global] Instance sample_libraries : Libraries Z Z Z Z (list Z) Z := {|
  memory_one := [ "Tit For Tat"; "Win-Stay Lose-Shift" ];
  load_partition _ id _ := Ok [ (id, 0); (id + 1, 1); (id + 2, 0); (id + 3, 1) ];
  train_test_split d _ _ := Ok (take 3 d, drop 3 d);
  pytorch_transforms img := img;
  Net n t := (n + t, t + 1);
  state_dict_items p := [ ("fc.weight", p) ];
  ndarrays_to_parameters nds := nds;
|}.

(** A network whose single parameter [p] is a threshold: an image [x] is
    given the rows [[p; x]], and in training mode a forward pass moves the
    parameter. *)
Definition sample_argmax (row : list float) : Z :=
  match row with
  | [ a; b ] => if PrimFloat.ltb a b then 1 else 0
  | _ => 0
  end.

Definition sample_logits (p x : Z) : list float := [ b64_of_int p; b64_of_int x ].

#[global] Instance sample_torch : Torch float Z Z := {|
  forward mode p images :=
    (map (sample_logits p) images, if mode then p + 1 else p);
  logits := sample_logits;
  argmax := sample_argmax;
  cross_entropy _ _ := 0.25%float;
  sampler l := reverse l;
|}.

(** The context of the client of partition [i], and the globals of a run
    of the script on the sample libraries. *)
Definition sample_context (i : Z) : Context :=
  {| node_config := {[ "partition-id" := i ]} |}.

Definition sample_globals : globals (list nat) :=
  (script (Parameters := list Z) [ 1%nat; 0%nat ]).2.

(** ** Definitions for the further properties *)

(** Sum of [n_i * a_i] over the reports, in exact arithmetic. *)
Definition weighted_total (nas : list (Z * Qc)) : Qc :=
  Qc_sum (map (λ q, Qc_of_Z q.1 * q.2)%Qc nas).

(** The accuracy of what [test] returns. *)
Definition accuracy_of {F} (r : result (F * F)) : result F :=
  '(_, accuracy) ← r; Ok accuracy.

(** [l[:n]]: a negative [n] counts from the end. *)
Definition py_slice_to {A} (l : list A) (n : Z) : list A :=
  if decide (n < 0) then take (Z.to_nat (Z.of_nat (length l) + n)) l
  else take (Z.to_nat n) l.

(** The indices of the images that [visualise_n_random_examples] displays
    (main.py, lines 48-50), for a training set of [size] images:
    [idx = list(range(size)); random.shuffle(idx); idx = idx[:n]]. *)
Definition visualised_indices {G} `{!Random G} (size : nat) (n : Z) (g : G)
    : list nat * G :=
  let idx := seq 0 size in
  let '(idx, g) := random_shuffle idx g in
  let idx := py_slice_to idx n in
  (idx, g).

(** ** Training *)

(** What [train] touches: the network, the gradients its parameters hold
    ([None] once they are reset), the state of the optimizer and the
    generator from which a shuffling loader draws the order of an epoch. *)
Record trainer (P G O T : Type) : Type := {
  tr_net : Module P;
  tr_grad : option G;
  tr_opt : O;
  tr_rng : T;
}.

Arguments tr_net {P G O T} _.
Arguments tr_grad {P G O T} _.
Arguments tr_opt {P G O T} _.
Arguments tr_rng {P G O T} _.

(** The parts of torch that [train] and [run_centralised] call beyond
    those of [test].
    - [gradient p images labels] is what [loss.backward()] computes for
      [loss = criterion(net(images), labels)] at the state [p];
    - [grad_add] is the accumulation of a gradient onto one already held;
    - [optimizer_step o p g] is [optimizer.step()]: the new state of the
      network and of the optimizer;
    - [SGD p lr momentum] is [torch.optim.SGD(model.parameters(), ...)];
    - [epoch_order t l] is the order in which a shuffling loader visits
      [l] in one pass, drawn from the generator [t]. *)
Class Training (F image P G O T : Type) : Type := {
  gradient : P → list image → list Z → G;
  grad_add : G → G → G;
  optimizer_step : O → P → option G → P * O;
  SGD : P → F → F → O;
  epoch_order : T → list (image * Z) → list (image * Z) * T;
}.

Class TrainingLaws (F image P G O T : Type) `{!Training F image P G O T} : Prop := {
  epoch_order_perm : ∀ t l, (epoch_order t l).1 ≡ₚ l;
}.

(** A printed line: a text, or [f"{name = }"] for a float. *)
Inductive printed (F : Type) : Type :=
| Text (s : string)
| Named (label : string) (value : F).

Arguments Text {F} s.
Arguments Named {F} label value.

Section Train.
Context {F image P G O T : Type}.
Context `{!Arith F} `{!Torch F image P} `{!Training F image P G O T}.

(** One pass of a loader whose shuffling draws from [t]. *)
Definition epoch_batches (loader : DataLoader (image * Z)) (t : T)
    : list (list (image * Z)) * T :=
  let '(order, t) :=
    if shuffle loader then epoch_order t (dataset loader)
    else (dataset loader, t) in
  (chunks (length order) (Pos.to_nat (batch_size loader)) order, t).

(** One iteration of the loop of [train] (lines 84-88). *)
Definition train_batch (w : trainer P G O T) (batch : list (image * Z))
    : trainer P G O T :=
  let images := map fst batch in
  let labels := map snd batch in
  (* optimizer.zero_grad() *)
  let grad := None in
  (* loss = criterion(net(images), labels) *)
  let '(outputs, p) := forward (training (tr_net w)) (state_dict (tr_net w)) images in
  let loss := cross_entropy outputs labels in
  (* loss.backward() *)
  let g := gradient (state_dict (tr_net w)) images labels in
  let grad := Some (match grad with None => g | Some g0 => grad_add g0 g end) in
  (* optimizer.step() *)
  let '(p, opt) := optimizer_step (tr_opt w) p grad in
  {| tr_net := {| state_dict := p; training := training (tr_net w) |};
     tr_grad := grad;
     tr_opt := opt;
     tr_rng := tr_rng w |}.

(** [train] (main.py, lines 79-88); the optimizer is the one of [w]. *)
Definition train (w : trainer P G O T) (trainloader : DataLoader (image * Z))
    (epochs : Z) : trainer P G O T :=
  (* net.train() *)
  let net := {| state_dict := state_dict (tr_net w); training := true |} in
  let '(bs, t) := epoch_batches trainloader (tr_rng w) in
  fold_left train_batch bs
    {| tr_net := net; tr_grad := tr_grad w; tr_opt := tr_opt w; tr_rng := t |}.

(** The line that [run_centralised] prints before the epoch [e]. *)
Definition epoch_line (e : Z) : printed F :=
  Text ("Training epoch " +:+ py_str e +:+ " ...").

(** The loop over the epochs of [run_centralised] (lines 121-123). *)
Definition train_epochs (trainloader : DataLoader (image * Z)) (epochs : Z)
    (w : trainer P G O T) : list (printed F) * trainer P G O T :=
  fold_left (λ '(out, w) e, (out ++ [ epoch_line e ], train w trainloader epochs))
            (seqZ 0 epochs) ([], w).

End Train.

Section Centralised.
Context {F raw image P ndarray Parameters G O T : Type}.
Context `{!Arith F} `{!Torch F image P} `{!Training F image P G O T}.
Context `{!Libraries raw image P ndarray Parameters T}.

(** [run_centralised] (main.py, lines 109-128), from the generator [t] and
    the grad mode [grad]: what it raises, what it prints, and the network
    it leaves. *)
Definition run_centralised (trainloader testloader : DataLoader (image * Z))
    (epochs : Z) (lr momentum : F) (t : T) (grad : bool)
    : result unit * list (printed F) * Module P :=
  let '(model, t) := Net 10 t in
  let model := {| state_dict := model; training := true |} in
  let optim := SGD (state_dict model) lr momentum in
  let w := {| tr_net := model; tr_grad := None; tr_opt := optim; tr_rng := t |} in
  let '(out, w) := train_epochs trainloader epochs w in
  let '(r, s) := test testloader {| net := tr_net w; grad_enabled := grad |} in
  match r with
  | Ok (loss, accuracy) =>
      (Ok (), out ++ [ Named "loss" loss; Named "accuracy" accuracy ], net s)
  | Raise e => (Raise e, out, net s)
  end.

End Centralised.

(** Sample training parts: the gradient of a batch is its size, a step
    subtracts the gradient and counts, each epoch reverses the order and
    steps the generator. *)
#[global] Instance sample_training : Training float Z Z Z nat Z := {|
  gradient p images labels := Z.of_nat (length images);
  grad_add := Z.add;
  optimizer_step o p g := (p - default 0 g, S o);
  SGD p lr momentum := O;
  epoch_order t l := (reverse l, t + 1);
|}.

(** * Theorems *)

(** ** The sample environment meets its contracts *)

#[global] Instance tape_random_laws : RandomLaws (list nat).
Proof.
  split. intros g n Hn. destruct g as [|t g']; simpl; [done|].
  apply Nat.mod_upper_bound. lia.
Qed.

#[global] Instance sample_torch_laws : TorchLaws float Z Z.
Proof.
  split.
  - done.
  - intros l. apply reverse_Permutation.
Qed.
(** ** Aggregation *)

Example wa_two_clients :
  weighted_average (F := float)
    [ (10, {[ "accuracy" := SFloat 0.5%float ]});
      (30, {[ "accuracy" := SFloat 0.75%float; "loss" := SFloat 2%float ]}) ]
  = Ok {[ "accuracy" := SFloat 0.6875%float ]}.
Proof. vm_compute. reflexivity. Qed.

Example wa_empty : weighted_average (F := float) [] = Raise ZeroDivisionError.
Proof. reflexivity. Qed.

Section AggregationFacts.
Context {F : Type} `{!Arith F}.

Lemma py_sum_int_total (nas : list (Z * F)) :
  py_sum_int (map fst nas) = total nas.
Proof.
  unfold py_sum_int.
  assert (G : ∀ (l : list (Z * F)) z, fold_left Z.add (map fst l) z = z + total l).
  { induction l as [|q l IH]; intros z; simpl; [lia|]. rewrite IH. lia. }
  rewrite G. lia.
Qed.

Lemma reported_counts (ms : list (Z * Metrics F)) nas :
  reported ms nas →
  map (λ '(num_examples, _), num_examples) ms = map fst nas.
Proof.
  induction 1 as [|[n m] [n' a] ms nas [Hn _] _ IH]; simpl in *; [done|].
  by rewrite Hn, IH.
Qed.

Lemma mapM_cons {A B} (f : A → result B) (x : A) (l : list A) :
  mapM f (x :: l) = y ← f x; k ← mapM f l; mret (y :: k).
Proof. reflexivity. Qed.

Lemma reported_products (ms : list (Z * Metrics F)) nas :
  reported ms nas → fits (map fst nas) →
  mapM (λ '(num_examples, m),
          a ← py_getitem m "accuracy"; py_mul num_examples a) ms
  = Ok (map (λ q, NFloat (fl_mul (fl_of_int q.1) q.2)) nas).
Proof.
  induction 1 as [|[n m] [n' a] ms nas [Hn Ha] _ IH]; [done|].
  intros Hfit. apply Forall_cons in Hfit as [Hfit1 Hfit].
  simpl in Hn, Ha, Hfit1. subst n'. rewrite mapM_cons, (IH Hfit).
  unfold py_getitem. rewrite Ha. simpl.
  unfold py_float. by rewrite Hfit1.
Qed.

Lemma sum_from_floats (xs : list F) (acc : F) :
  sum_from (NFloat acc) (map NFloat xs) = Ok (NFloat (fold_left fl_add xs acc)).
Proof.
  revert acc. induction xs as [|x xs IH]; intros acc; simpl; [done|]. apply IH.
Qed.

Lemma py_sum_products (nas : list (Z * F)) :
  nas ≠ [] → fl_int_overflow 0 = false →
  py_sum (map (λ q, NFloat (fl_mul (fl_of_int q.1) q.2)) nas)
  = Ok (NFloat (weighted_sum nas)).
Proof.
  intros Hne H0. destruct nas as [|q nas]; [done|].
  unfold py_sum, weighted_sum. simpl. unfold py_float. rewrite H0. simpl.
  rewrite <-(map_map (λ q, fl_mul (fl_of_int q.1) q.2) NFloat).
  rewrite sum_from_floats. do 2 f_equal.
  generalize (fl_add (fl_of_int 0) (fl_mul (fl_of_int q.1) q.2)).
  clear Hne. induction nas as [|q' nas IH]; intros acc; simpl; [done|]. apply IH.
Qed.

(** The value [weighted_average] returns on well-formed reports. *)
Lemma weighted_average_reported (ms : list (Z * Metrics F)) nas :
  reported ms nas → nas ≠ [] → total nas ≠ 0 →
  fits (0 :: total nas :: map fst nas) →
  weighted_average ms = Ok {[ "accuracy" := SFloat (weighted_mean nas) ]}.
Proof.
  intros Hrep Hne Htot Hfit.
  apply Forall_cons in Hfit as [H0 Hfit]. apply Forall_cons in Hfit as [HN Hfit].
  unfold weighted_average.
  rewrite (reported_products _ _ Hrep Hfit). simpl.
  rewrite (py_sum_products _ Hne H0). simpl.
  rewrite (reported_counts _ _ Hrep), py_sum_int_total.
  unfold py_truediv. rewrite decide_False by done.
  unfold py_float. rewrite HN. done.
Qed.

(** Whatever it is given, [weighted_average] raises when the example
    counts sum to zero. *)
Lemma zero_total_raises (ms : list (Z * Metrics F)) :
  py_sum_int (map (λ '(num_examples, _), num_examples) ms) = 0 →
  raises (weighted_average ms).
Proof.
  intros Hz. unfold weighted_average.
  destruct (mapM _ ms) as [accs|e]; simpl; [|done].
  destruct (py_sum accs) as [s|e]; simpl; [|done].
  rewrite Hz. unfold py_truediv. by rewrite decide_True.
Qed.

End AggregationFacts.

(** ** Exact arithmetic: the average as a convex combination *)

Section ExactFacts.
#[local] Open Scope Qc_scope.

Lemma Qc_of_Z_total_pos (nas : list (Z * Qc)) :
  nas ≠ [] → Forall (λ q, (0 < q.1)%Z) nas → (0 < total nas)%Z.
Proof.
  intros Hne Hpos. destruct Hpos as [|q nas Hq Hpos]; [done|]. simpl.
  assert (0 ≤ total nas)%Z; [|lia].
  clear Hne. induction Hpos as [|q' nas Hq' _ IH]; simpl; lia.
Qed.

Lemma weighted_sum_exact (nas : list (Z * Qc)) :
  weighted_sum nas = Qc_sum (map (λ q, Qc_of_Z q.1 * q.2) nas).
Proof.
  unfold weighted_sum. simpl.
  assert (G : ∀ (l : list (Z * Qc)) acc,
    fold_left (λ s q, s + Qc_of_Z q.1 * q.2) l acc
    = acc + Qc_sum (map (λ q, Qc_of_Z q.1 * q.2) l)).
  { induction l as [|q l IH]; intros acc; simpl.
    - rewrite Z2Qc_inj_0. ring.
    - rewrite IH. ring. }
  rewrite G, Z2Qc_inj_0. ring.
Qed.

Lemma Qc_sum_scale (c : Qc) (l : list Qc) :
  Qc_sum l * c = Qc_sum (map (λ x, x * c) l).
Proof.
  induction l as [|x l IH]; simpl.
  - rewrite Z2Qc_inj_0. ring.
  - rewrite <-IH. ring.
Qed.

Lemma weighted_mean_exact (nas : list (Z * Qc)) :
  weighted_mean nas = convex_combination nas.
Proof.
  unfold weighted_mean, convex_combination. simpl.
  rewrite weighted_sum_exact. unfold Qcdiv. rewrite Qc_sum_scale, map_map.
  f_equal. apply map_ext. intros [n a]. unfold weight, Qcdiv. simpl. ring.
Qed.

Lemma Qc_sum_counts (N : Z) (l : list (Z * Qc)) :
  Qc_sum (map (λ q, weight N q.1) l) = Qc_of_Z (total l) / Qc_of_Z N.
Proof.
  induction l as [|q l IH]; simpl.
  - rewrite Z2Qc_inj_0. unfold Qcdiv. ring.
  - rewrite IH, Z2Qc_inj_add. unfold weight, Qcdiv. ring.
Qed.

Lemma weights_sum_one (nas : list (Z * Qc)) :
  total nas ≠ 0%Z → Qc_sum (weights nas) = 1.
Proof.
  intros HN. unfold weights. rewrite Qc_sum_counts.
  unfold Qcdiv. apply Qcmult_inv_r.
  rewrite <-Z2Qc_inj_0. by intros ?%Z2Qc_inj.
Qed.

Lemma weight_nonneg (N n : Z) : (0 < N)%Z → (0 ≤ n)%Z → 0 ≤ weight N n.
Proof.
  intros HN Hn. unfold weight, Qcdiv. apply Qcmult_nonneg_nonneg.
  - rewrite <-Z2Qc_inj_0. by apply (proj1 (Z2Qc_inj_le _ _)).
  - apply Qclt_le_weak, Qcinv_pos. rewrite <-Z2Qc_inj_0.
    by apply (proj1 (Z2Qc_inj_lt _ _)).
Qed.

Lemma weights_nonneg (nas : list (Z * Qc)) :
  nas ≠ [] → Forall (λ q, (0 < q.1)%Z) nas → Forall (λ w, 0 ≤ w) (weights nas).
Proof.
  intros Hne Hpos. pose proof (Qc_of_Z_total_pos _ Hne Hpos) as HN.
  unfold weights. apply Forall_map. eapply Forall_impl; [exact Hpos|].
  intros q Hq. simpl in *. apply weight_nonneg; lia.
Qed.

(** A combination with non-negative weights stays between any two bounds
    of the combined values, scaled by the sum of the weights. *)
Lemma combination_bounds (lo hi : Qc) (was : list (Qc * Qc)) :
  Forall (λ p, 0 ≤ p.1 ∧ lo ≤ p.2 ∧ p.2 ≤ hi) was →
  lo * Qc_sum (map fst was) ≤ Qc_sum (map (λ p, p.1 * p.2) was)
  ∧ Qc_sum (map (λ p, p.1 * p.2) was) ≤ hi * Qc_sum (map fst was).
Proof.
  induction 1 as [|[w a] was (Hw & Hlo & Hhi) _ [IHlo IHhi]]; simpl in *.
  - rewrite Z2Qc_inj_0, !Qcmult_0_r. split; apply Qcle_refl.
  - split.
    + replace (lo * (w + Qc_sum (map fst was)))
        with (w * lo + lo * Qc_sum (map fst was)) by ring.
      apply Qcplus_le_compat; [|done]. by apply Qcmult_le_mono_nonneg_l.
    + replace (hi * (w + Qc_sum (map fst was)))
        with (w * hi + hi * Qc_sum (map fst was)) by ring.
      apply Qcplus_le_compat; [|done]. by apply Qcmult_le_mono_nonneg_l.
Qed.

Lemma minimum_le (a : Qc) (l : list Qc) :
  Forall (λ x, minimum a l ≤ x) (a :: l).
Proof.
  assert (Hmin : ∀ x y : Qc, fl_min x y ≤ x ∧ fl_min x y ≤ y).
  { intros x y. unfold fl_min. simpl. case_bool_decide as Hxy.
    - split; [apply Qcle_refl|done].
    - split; [|apply Qcle_refl]. by apply Qclt_le_weak, Qclt_nge. }
  induction l as [|x l IH]; simpl.
  - constructor; [apply Qcle_refl|constructor].
  - destruct (Hmin x (minimum a l)) as [H1 H2].
    apply Forall_cons in IH as [IHa IHl].
    constructor; [by etrans|]. constructor; [done|].
    eapply Forall_impl; [exact IHl|]. intros y Hy. simpl in Hy. by etrans.
Qed.

Lemma le_maximum (a : Qc) (l : list Qc) :
  Forall (λ x, x ≤ maximum a l) (a :: l).
Proof.
  assert (Hmax : ∀ x y : Qc, x ≤ fl_max x y ∧ y ≤ fl_max x y).
  { intros x y. unfold fl_max. simpl. case_bool_decide as Hxy.
    - split; [done|apply Qcle_refl].
    - split; [apply Qcle_refl|]. by apply Qclt_le_weak, Qclt_nge. }
  induction l as [|x l IH]; simpl.
  - constructor; [apply Qcle_refl|constructor].
  - destruct (Hmax x (maximum a l)) as [H1 H2].
    apply Forall_cons in IH as [IHa IHl].
    constructor; [by etrans|]. constructor; [done|].
    eapply Forall_impl; [exact IHl|]. intros y Hy. simpl in Hy. by etrans.
Qed.

Lemma convex_combination_bounds (lo hi : Qc) (nas : list (Z * Qc)) :
  nas ≠ [] → Forall (λ q, (0 < q.1)%Z) nas →
  Forall (λ q, lo ≤ q.2 ∧ q.2 ≤ hi) nas →
  lo ≤ convex_combination nas ∧ convex_combination nas ≤ hi.
Proof.
  intros Hne Hpos Hb.
  pose proof (Qc_of_Z_total_pos _ Hne Hpos) as HN.
  pose proof (weights_sum_one nas ltac:(lia)) as Hone.
  pose proof (weights_nonneg _ Hne Hpos) as Hnn.
  destruct (combination_bounds lo hi
              (map (λ q, (weight (total nas) q.1, q.2)) nas)) as [B1 B2].
  { apply Forall_map. rewrite Forall_forall. intros q Hq.
    rewrite Forall_forall in Hnn. rewrite Forall_forall in Hb. split.
    - apply Hnn. unfold weights. apply list_elem_of_fmap. by exists q.
    - by apply Hb. }
  rewrite !map_map in B1, B2.
  change (Qc_sum (map _ nas)) with (Qc_sum (weights nas)) in B1 at 1.
  change (Qc_sum (map _ nas)) with (Qc_sum (weights nas)) in B2 at 2.
  rewrite Hone, Qcmult_1_r in B1, B2. done.
Qed.

Lemma convex_combination_between (nas : list (Z * Qc)) :
  nas ≠ [] → Forall (λ q, (0 < q.1)%Z) nas →
  between_extremes (convex_combination nas) (map snd nas).
Proof.
  intros Hne Hpos.
  destruct nas as [|[n a] nas'] eqn:E; [done|]. rewrite <-E in *.
  assert (Hs : map snd nas = a :: map snd nas') by by rewrite E.
  rewrite Hs. unfold between_extremes.
  destruct (convex_combination_bounds
              (minimum a (map snd nas')) (maximum a (map snd nas')) nas)
    as [B1 B2]; [done..| |].
  - pose proof (minimum_le a (map snd nas')) as Hlo.
    pose proof (le_maximum a (map snd nas')) as Hhi.
    rewrite <-Hs in Hlo, Hhi. rewrite Forall_forall in Hlo.
    rewrite Forall_forall in Hhi.
    rewrite Forall_forall. intros q Hq. split.
    + apply Hlo. apply list_elem_of_fmap. by exists q.
    + apply Hhi. apply list_elem_of_fmap. by exists q.
  - split; by apply bool_decide_eq_true.
Qed.

End ExactFacts.

(** ** The aggregation callback: claims C1, C2, C3 and C9 *)

Lemma Ok_inj {A} (a b : A) : Ok a = Ok b → a = b.
Proof.
  intros H.
  by apply (f_equal (λ r, match r with Ok x => x | Raise _ => a end)) in H.
Qed.

Lemma singleton_accuracy_inj {F} (x y : F) :
  ({[ "accuracy" := SFloat x ]} : Metrics F) = {[ "accuracy" := SFloat y ]} →
  x = y.
Proof.
  intros H. apply (f_equal (λ m : Metrics F, m !! "accuracy")) in H.
  rewrite !lookup_singleton_eq in H. congruence.
Qed.

Ltac float_discriminate H c :=
  apply (f_equal (λ z, PrimFloat.eqb z c)) in H; vm_compute in H; discriminate H.

(** C1. For a non-empty list of reports whose example counts sum to a
    non-zero value, [weighted_average] returns the one-entry dictionary
    whose "accuracy" is the sum of [n_i * a_i] divided by the sum of the
    [n_i], computed in the arithmetic of the program; and the result is the
    same for every other list of reports with the same counts and the same
    "accuracy" entries, whatever else the metrics hold. *)
Theorem weighted_average_is_weighted_mean {F : Type} `{!Arith F}
    (metrics : list (Z * Metrics F)) (nas : list (Z * F)) :
  metrics ≠ [] →
  reported metrics nas →
  total nas ≠ 0 →
  fits (0 :: total nas :: map fst nas) →
  weighted_average metrics = Ok {[ "accuracy" := SFloat (weighted_mean nas) ]}
  ∧ ∀ metrics', reported metrics' nas →
      weighted_average metrics' = weighted_average metrics.
Proof.
  intros Hne Hrep Htot Hfit.
  assert (Hnas : nas ≠ []).
  { intros ->. apply Forall2_nil_inv_r in Hrep. done. }
  split.
  - by apply weighted_average_reported.
  - intros metrics' Hrep'.
    rewrite (weighted_average_reported metrics' nas) by done.
    by rewrite (weighted_average_reported metrics nas).
Qed.

Lemma weighted_average_is_weighted_mean_witness :
  weighted_average (F := float)
    [ (10, {[ "accuracy" := SFloat 0.5%float ]});
      (30, {[ "accuracy" := SFloat 0.75%float; "loss" := SFloat 2%float ]}) ]
  = Ok {[ "accuracy" := SFloat 0.6875%float ]}.
Proof.
  refine (proj1 (weighted_average_is_weighted_mean (F := float)
                   _ [ (10, 0.5%float); (30, 0.75%float) ] _ _ _ _)).
  - discriminate.
  - repeat constructor; vm_compute; reflexivity.
  - vm_compute. discriminate.
  - repeat constructor; vm_compute; reflexivity.
Defined.

(** C2, in exact arithmetic. For a non-empty list of reports with positive
    example counts, the weights [n_i / N] (with [N] the sum of the counts)
    are non-negative, there is one per client of the input list, they sum
    to 1, the returned accuracy is the combination of the reported
    accuracies under these weights, and it lies between the smallest and
    the largest reported accuracy. *)
Theorem weighted_average_convex (metrics : list (Z * Metrics Qc))
    (nas : list (Z * Qc)) :
  metrics ≠ [] →
  reported metrics nas →
  Forall (λ q, 0 < q.1) nas →
  Forall (λ w, (0 ≤ w)%Qc) (weights nas)
  ∧ length (weights nas) = length metrics
  ∧ Qc_sum (weights nas) = 1%Qc
  ∧ weighted_average metrics
    = Ok {[ "accuracy" := SFloat (convex_combination nas) ]}
  ∧ between_extremes (convex_combination nas) (map snd nas).
Proof.
  intros Hne Hrep Hpos.
  assert (Hnas : nas ≠ []).
  { intros ->. apply Forall2_nil_inv_r in Hrep. done. }
  pose proof (Qc_of_Z_total_pos _ Hnas Hpos) as HN.
  split_and!.
  - by apply weights_nonneg.
  - unfold weights. rewrite length_map. symmetry. by eapply Forall2_length.
  - apply weights_sum_one. lia.
  - rewrite <-weighted_mean_exact.
    apply weighted_average_reported; [done..|lia|].
    apply Forall_forall. done.
  - by apply convex_combination_between.
Qed.

Lemma weighted_average_convex_witness :
  weighted_average (F := Qc)
    [ (1, {[ "accuracy" := SFloat (Qc_of_Z 0) ]});
      (3, {[ "accuracy" := SFloat (Qc_of_Z 1) ]}) ]
  = Ok {[ "accuracy" := SFloat (convex_combination
                                  [ (1, Qc_of_Z 0); (3, Qc_of_Z 1) ]) ]}.
Proof.
  refine (proj1 (proj2 (proj2 (proj2 (weighted_average_convex
                   _ [ (1, Qc_of_Z 0); (3, Qc_of_Z 1) ] _ _ _))))).
  - discriminate.
  - repeat constructor; vm_compute; reflexivity.
  - repeat constructor; simpl; lia.
Defined.

(** C2 as stated fails under binary64: one client with 3 examples and
    accuracy 0.1 is averaged to 0.10000000000000002, above the largest
    (and only) reported accuracy. *)
Lemma weighted_average_convex_binary64_counterexample :
  ¬ (∀ (metrics : list (Z * Metrics float)) (nas : list (Z * float)),
       metrics ≠ [] →
       reported metrics nas →
       Forall (λ q, 0 < q.1) nas →
       ∃ r, weighted_average metrics = Ok {[ "accuracy" := SFloat r ]}
            ∧ between_extremes r (map snd nas)).
Proof.
  intros H.
  destruct (H [ (3, {[ "accuracy" := SFloat 0.1%float ]}) ] [ (3, 0.1%float) ])
    as (r & Hr & _ & Hmax).
  - discriminate.
  - repeat constructor; vm_compute; reflexivity.
  - repeat constructor; simpl; lia.
  - assert (Hv : weighted_average (F := float)
                   [ (3, {[ "accuracy" := SFloat 0.1%float ]}) ]
                 = Ok {[ "accuracy" := SFloat 0.10000000000000002%float ]})
      by (vm_compute; reflexivity).
    rewrite Hv in Hr. apply Ok_inj, singleton_accuracy_inj in Hr as <-.
    vm_compute in Hmax. discriminate Hmax.
Qed.

(** C3, as the code has it. A single report with a positive count is
    averaged to its own accuracy in exact arithmetic; under binary64 the
    result is [(0.0 + n * a) / n] with the roundings of its product and
    quotient. *)
Theorem single_update (n : Z) :
  0 < n →
  (∀ (m : Metrics Qc) (a : Qc),
     m !! "accuracy" = Some (SFloat a) →
     weighted_average [ (n, m) ] = Ok {[ "accuracy" := SFloat a ]})
  ∧ (∀ (m : Metrics float) (a : float),
       fits (F := float) [ n ] →
       m !! "accuracy" = Some (SFloat a) →
       weighted_average [ (n, m) ]
       = Ok {[ "accuracy" := SFloat ((0 + b64_of_int n * a) / b64_of_int n)%float ]}).
Proof.
  intros Hn. split.
  - intros m a Ha.
    rewrite (weighted_average_reported [ (n, m) ] [ (n, a) ]).
    + do 3 f_equal. unfold weighted_mean, weighted_sum. simpl.
      rewrite Z.add_0_r, Z2Qc_inj_0.
      assert (Qc_of_Z n ≠ Qc_of_Z 0) as Hn0 by (intros ?%Z2Qc_inj; lia).
      rewrite Z2Qc_inj_0 in Hn0. field. done.
    + by repeat constructor.
    + done.
    + simpl. lia.
    + by repeat constructor.
  - intros m a Hfit Ha.
    rewrite (weighted_average_reported [ (n, m) ] [ (n, a) ]).
    + unfold weighted_mean, weighted_sum. simpl. by rewrite Z.add_0_r.
    + by repeat constructor.
    + done.
    + simpl. lia.
    + apply Forall_cons in Hfit as [Hfit _]. simpl. rewrite Z.add_0_r.
      by repeat constructor.
Qed.

Lemma single_update_witness :
  weighted_average (F := Qc) [ (3, {[ "accuracy" := SFloat (Qc_of_Z 1) ]}) ]
  = Ok {[ "accuracy" := SFloat (Qc_of_Z 1) ]}
  ∧ weighted_average (F := float) [ (3, {[ "accuracy" := SFloat 0.1%float ]}) ]
    = Ok {[ "accuracy" := SFloat 0.10000000000000002%float ]}.
Proof.
  assert (H3 : 0 < 3) by lia.
  split.
  - refine (proj1 (single_update 3 H3) _ (Qc_of_Z 1) _). vm_compute. reflexivity.
  - refine (proj2 (single_update 3 H3) _ 0.1%float _ _).
    + repeat constructor.
    + vm_compute. reflexivity.
Defined.

(** C3 as stated fails under binary64: the sole report (3, 0.1) comes
    back as 0.10000000000000002. *)
Lemma single_update_binary64_counterexample :
  ¬ (∀ (n : Z) (m : Metrics float) (a : float),
       0 < n →
       m !! "accuracy" = Some (SFloat a) →
       weighted_average [ (n, m) ] = Ok {[ "accuracy" := SFloat a ]}).
Proof.
  intros H.
  specialize (H 3 {[ "accuracy" := SFloat 0.1%float ]} 0.1%float).
  assert (Hv : weighted_average (F := float)
                 [ (3, {[ "accuracy" := SFloat 0.1%float ]}) ]
               = Ok {[ "accuracy" := SFloat 0.10000000000000002%float ]})
    by (vm_compute; reflexivity).
  rewrite Hv in H.
  assert (H' : 0 < 3) by lia. specialize (H H' ltac:(vm_compute; reflexivity)).
  apply Ok_inj, singleton_accuracy_inj in H.
  float_discriminate H 0.1%float.
Qed.

(** C9. When the example counts sum to zero, in particular for the empty
    list, [weighted_average] returns no value; on reports that carry
    their accuracy the exception is [ZeroDivisionError]. *)
Theorem weighted_average_zero_total {F : Type} `{!Arith F}
    (metrics : list (Z * Metrics F)) :
  py_sum_int (map fst metrics) = 0 →
  raises (weighted_average metrics)
  ∧ (metrics = [] → weighted_average metrics = Raise ZeroDivisionError)
  ∧ (∀ nas, reported metrics nas → fits (0 :: map fst nas) →
       weighted_average metrics = Raise ZeroDivisionError).
Proof.
  intros Hz. split_and!.
  - by apply zero_total_raises.
  - by intros ->.
  - intros nas Hrep Hfit. apply Forall_cons in Hfit as [H0 Hfit].
    unfold weighted_average. rewrite (reported_products _ _ Hrep Hfit). simpl.
    destruct nas as [|q nas'] eqn:E.
    + apply Forall2_nil_inv_r in Hrep as ->. done.
    + rewrite <-E in *. rewrite py_sum_products by (done || by rewrite E).
      simpl. change (map _ metrics) with (map fst metrics). rewrite Hz.
      done.
Qed.

Lemma weighted_average_zero_total_witness :
  weighted_average (F := float)
    [ (2, {[ "accuracy" := SFloat 0.5%float ]});
      (-2, {[ "accuracy" := SFloat 0.25%float ]}) ]
  = Raise ZeroDivisionError.
Proof.
  refine (proj2 (proj2 (weighted_average_zero_total (F := float) _ _))
            [ (2, 0.5%float); (-2, 0.25%float) ] _ _).
  - vm_compute. reflexivity.
  - repeat constructor; vm_compute; reflexivity.
  - repeat constructor; vm_compute; reflexivity.
Defined.

(** ** Evaluation *)

Lemma chunks_concat {X} (fuel n : nat) (l : list X) :
  (0 < n)%nat → (length l ≤ fuel)%nat → concat (chunks fuel n l) = l.
Proof.
  intros Hn. revert l. induction fuel as [|fuel IH]; intros l Hl.
  - destruct l; [done|]. simpl in Hl. lia.
  - destruct l as [|x l']; [done|].
    change (chunks (S fuel) n (x :: l'))
      with (take n (x :: l') :: chunks fuel n (drop n (x :: l'))).
    rewrite concat_cons, IH.
    + apply take_drop.
    + rewrite length_drop. simpl in *. lia.
Qed.

Section EvaluationFacts.
Context {F image P : Type} `{!Arith F} `{!Torch F image P} `{!TorchLaws F image P}.

Lemma batches_concat (loader : DataLoader (image * Z)) :
  concat (batches loader) ≡ₚ dataset loader.
Proof.
  unfold batches. rewrite chunks_concat by lia.
  destruct (shuffle loader); [apply sampler_perm|done].
Qed.

Lemma count_equal_classified (p : P) (b : list (image * Z)) :
  count_equal (map argmax (map (logits p) (map fst b))) (map snd b)
  = correctly_classified p b.
Proof.
  unfold count_equal, correctly_classified. f_equal.
  induction b as [|[x y] b IH]; [done|]. simpl.
  rewrite !filter_cons. simpl.
  destruct (decide (argmax (logits p x) = y)); simpl; by rewrite IH.
Qed.

Lemma correctly_classified_app (p : P) (l k : list (image * Z)) :
  correctly_classified p (l ++ k)
  = correctly_classified p l + correctly_classified p k.
Proof.
  unfold correctly_classified. rewrite filter_app, length_app. lia.
Qed.

Lemma correctly_classified_perm (p : P) (l k : list (image * Z)) :
  l ≡ₚ k → correctly_classified p l = correctly_classified p k.
Proof. intros H. unfold correctly_classified. by rewrite H. Qed.

(** In evaluation mode the loop of [test] counts the correctly classified
    examples of its batches, adds up their losses and leaves the network
    as it found it. *)
Lemma test_loop (p : P) (bs : list (list (image * Z))) (correct : Z) (loss : F) :
  fold_left test_batch bs
    (correct, loss, {| state_dict := p; training := false |})
  = (correct + correctly_classified p (concat bs),
     fold_left (λ loss b, fl_add loss
                  (cross_entropy (map (logits p) (map fst b)) (map snd b)))
               bs loss,
     {| state_dict := p; training := false |}).
Proof.
  revert correct loss. induction bs as [|b bs IH]; intros correct loss.
  - simpl. do 2 f_equal. unfold correctly_classified. simpl. lia.
  - simpl. rewrite forward_eval. rewrite IH.
    rewrite count_equal_classified, correctly_classified_app.
    do 2 f_equal. lia.
Qed.

Lemma test_unfold (loader : DataLoader (image * Z)) (s : torch_state P) :
  test loader s
  = (accuracy ← py_truediv
                  (NInt (correctly_classified (state_dict (net s)) (dataset loader)))
                  (Z.of_nat (length (dataset loader)));
     Ok (summed_loss (state_dict (net s)) (batches loader), accuracy),
     {| net := {| state_dict := state_dict (net s); training := false |};
        grad_enabled := grad_enabled s |}).
Proof.
  unfold test. rewrite test_loop. rewrite Z.add_0_l.
  by rewrite (correctly_classified_perm _ _ _ (batches_concat loader)).
Qed.

End EvaluationFacts.

(** C10, as the code has it. [test] leaves the [state_dict] of the network
    unchanged (and the network in evaluation mode, with the grad mode
    restored), whatever the loader; on a loader over a non-empty dataset it
    returns the summed loss and the accuracy
    [correct / len(testloader.dataset)], where [correct] is the number of
    correctly classified examples of the dataset; on an empty dataset it
    raises [ZeroDivisionError]. *)
Theorem test_frame_and_accuracy {F image P : Type}
    `{!Arith F} `{!Torch F image P} `{!TorchLaws F image P}
    (testloader : DataLoader (image * Z)) (s : torch_state P) :
  let p := state_dict (net s) in
  let correct := correctly_classified p (dataset testloader) in
  let size := Z.of_nat (length (dataset testloader)) in
  (test testloader s).2
  = {| net := {| state_dict := p; training := false |};
       grad_enabled := grad_enabled s |}
  ∧ (dataset testloader ≠ [] →
     (test testloader s).1
     = if fl_int_div_overflow correct size then Raise OverflowError
       else Ok (summed_loss p (batches testloader), fl_int_div correct size))
  ∧ (dataset testloader = [] → (test testloader s).1 = Raise ZeroDivisionError).
Proof.
  intros p correct size. rewrite test_unfold. split_and!.
  - done.
  - intros Hne. simpl. unfold py_truediv.
    rewrite decide_False by (destruct (dataset testloader); [done|simpl; lia]).
    fold p correct size. by destruct (fl_int_div_overflow correct size).
  - intros ->. done.
Qed.

Lemma test_frame_and_accuracy_witness :
  test (F := float)
    {| dataset := [ (1, 1); (5, 0); (7, 1) ]; batch_size := 2; shuffle := true |}
    {| net := {| state_dict := 3; training := true |}; grad_enabled := true |}
  = (Ok (0.5%float, 0.33333333333333331%float),
     {| net := {| state_dict := 3; training := false |}; grad_enabled := true |}).
Proof.
  pose proof (test_frame_and_accuracy (F := float)
    {| dataset := [ (1, 1); (5, 0); (7, 1) ]; batch_size := 2; shuffle := true |}
    {| net := {| state_dict := 3; training := true |}; grad_enabled := true |})
    as (Hframe & Hacc & _).
  specialize (Hacc ltac:(discriminate)).
  rewrite (surjective_pairing (test _ _)), Hframe, Hacc.
  vm_compute. reflexivity.
Defined.

(** C10 as stated fails on a loader over an empty dataset: [test] raises
    [ZeroDivisionError] instead of returning a pair. *)
Lemma test_empty_dataset_counterexample :
  ¬ (∀ (testloader : DataLoader (Z * Z)) (s : torch_state Z),
       ∃ loss accuracy : float,
         (test testloader s).1 = Ok (loss, accuracy)
         ∧ state_dict (net (test testloader s).2) = state_dict (net s)).
Proof.
  intros H.
  destruct (H {| dataset := []; batch_size := 32; shuffle := false |}
              {| net := {| state_dict := 3; training := true |};
                 grad_enabled := true |}) as (loss & accuracy & Hret & _).
  vm_compute in Hret. discriminate Hret.
Qed.

(** ** Shuffling *)

Section ShuffleFacts.
Context {G : Type} `{!Random G} `{!RandomLaws G} {A : Type}.

Lemma insert_head_Permutation (x : list A) (j : nat) (a b : A) :
  x !! j = Some b → b :: <[j := a]> x ≡ₚ a :: x.
Proof.
  revert j. induction x as [|c x IH]; intros [|j] Hj; simplify_eq/=.
  - apply perm_swap.
  - rewrite perm_swap, (IH _ Hj). apply perm_swap.
Qed.

Lemma swap_Permutation (i j : nat) (x : list A) : swap i j x ≡ₚ x.
Proof.
  unfold swap. revert i j. induction x as [|a x IH]; intros i j; [by destruct i|].
  destruct i as [|i], j as [|j]; simpl.
  - done.
  - destruct (x !! j) as [b|] eqn:Hj; [|done]. by apply insert_head_Permutation.
  - destruct (x !! i) as [b|] eqn:Hi; [|done]. by apply insert_head_Permutation.
  - specialize (IH i j).
    destruct (x !! i) as [xi|], (x !! j) as [xj|]; try done.
    by constructor.
Qed.

Lemma swap_lookup_ne (i j m : nat) (x : list A) :
  m ≠ i → m ≠ j → swap i j x !! m = x !! m.
Proof.
  intros Hi Hj. unfold swap.
  destruct (x !! i) as [xi|], (x !! j) as [xj|]; try done.
  by rewrite !list_lookup_insert_ne.
Qed.

Lemma swap_lookup_left (i j : nat) (x : list A) :
  (i < length x)%nat → (j < length x)%nat → swap i j x !! i = x !! j.
Proof.
  intros Hi Hj. unfold swap.
  destruct (lookup_lt_is_Some_2 x i Hi) as [xi Hxi].
  destruct (lookup_lt_is_Some_2 x j Hj) as [xj Hxj].
  rewrite Hxi, Hxj. destruct (decide (i = j)) as [->|Hne].
  - rewrite list_lookup_insert_eq by (by rewrite length_insert). congruence.
  - rewrite list_lookup_insert_ne by done.
    by rewrite list_lookup_insert_eq.
Qed.

Lemma shuffle_from_Permutation (i : nat) (x : list A) (g : G) :
  (shuffle_from i x g).1 ≡ₚ x.
Proof.
  revert x g. induction i as [|i IH]; intros x g; [done|].
  cbn [shuffle_from]. destruct (randbelow g (S i + 1)) as [j g'].
  rewrite IH. apply swap_Permutation.
Qed.

(** The iterations [i, ..., 1] leave the positions above [i] alone. *)
Lemma shuffle_from_lookup_above (i m : nat) (x : list A) (g : G) :
  (i < m)%nat → (shuffle_from i x g).1 !! m = x !! m.
Proof.
  revert x g. induction i as [|i IH]; intros x g Hm; [done|].
  cbn [shuffle_from].
  pose proof (randbelow_lt g (S i + 1) ltac:(lia)) as Hj.
  destruct (randbelow g (S i + 1)) as [j g']. simpl in Hj.
  rewrite IH by lia. apply swap_lookup_ne; lia.
Qed.

Lemma random_shuffle_Permutation (x : list A) (g : G) :
  (random_shuffle x g).1 ≡ₚ x.
Proof. apply shuffle_from_Permutation. Qed.

(** The last position receives the element that the first draw picks. *)
Lemma random_shuffle_last (x : list A) (g : G) (n : nat) :
  length x = S (S n) →
  (random_shuffle x g).1 !! S n = x !! (randbelow g (S (S n))).1.
Proof.
  intros Hlen. unfold random_shuffle. rewrite Hlen.
  replace (S (S n) - 1)%nat with (S n) by lia. cbn [shuffle_from].
  replace (S n + 1)%nat with (S (S n)) by lia.
  pose proof (randbelow_lt g (S (S n)) ltac:(lia)) as Hj.
  destruct (randbelow g (S (S n))) as [j g']. simpl in *.
  rewrite shuffle_from_lookup_above by lia.
  apply swap_lookup_left; lia.
Qed.

End ShuffleFacts.

(** ** Start-up *)

Section StartupFacts.
Context {G : Type} `{!Random G} `{!RandomLaws G}.
Context {raw image P ndarray Parameters T : Type}.
Context `{!Libraries raw image P ndarray Parameters T}.

Lemma created_length :
  length (map instantiate memory_one ++ [ instantiate "Random" ])
  = S (length memory_one).
Proof. rewrite length_app, length_map. simpl. lia. Qed.

Lemma module_init_client_strategies (g : G) :
  client_strategies (module_init g)
  = (random_shuffle (seq 0 (S (length memory_one))) g).1.
Proof.
  unfold module_init. rewrite created_length.
  by destruct (random_shuffle (seq 0 (S (length memory_one))) g).
Qed.

Lemma module_init_NUM_PARTITIONS (g : G) :
  NUM_PARTITIONS (module_init g) = length (client_strategies (module_init g)).
Proof.
  unfold module_init. rewrite created_length.
  by destruct (random_shuffle (seq 0 (S (length memory_one))) g).
Qed.

Lemma module_init_players (g : G) :
  players (module_init g)
  = map_seq 0 (map instantiate memory_one ++ [ instantiate "Random" ]).
Proof.
  unfold module_init. rewrite created_length.
  by destruct (random_shuffle (seq 0 (S (length memory_one))) g).
Qed.

Lemma module_init_partitioners (g : G) :
  iid_partitioner (module_init g) = IidPartitioner (NUM_PARTITIONS (module_init g))
  ∧ dirichlet_partitioner (module_init g)
    = DirichletPartitioner (NUM_PARTITIONS (module_init g)) 0.1 "label" SEED 0
  ∧ fds (module_init g)
    = {| fd_dataset := "ylecun/mnist";
         fd_partitioners := {[ "train" := dirichlet_partitioner (module_init g) ]} |}.
Proof.
  unfold module_init. rewrite created_length.
  by destruct (random_shuffle (seq 0 (S (length memory_one))) g).
Qed.

Lemma client_strategies_Permutation (g : G) :
  client_strategies (module_init g) ≡ₚ seq 0 (S (length memory_one)).
Proof. rewrite module_init_client_strategies. apply random_shuffle_Permutation. Qed.

Lemma client_strategies_length (g : G) :
  length (client_strategies (module_init g)) = S (length memory_one).
Proof. by rewrite client_strategies_Permutation, length_seq. Qed.

End StartupFacts.

(** ** Clients *)

Section ClientFacts.
Context {G : Type} `{!Random G} `{!RandomLaws G}.
Context {raw image P ndarray Parameters T : Type}.
Context `{!Libraries raw image P ndarray Parameters T}.

Lemma py_index_Ok {A} (l : list A) (i : nat) (a : A) :
  py_index l (Z.of_nat i) = Ok a ↔ l !! i = Some a.
Proof.
  unfold py_index. rewrite (decide_False (P := Z.of_nat i < 0)) by lia.
  destruct (decide (0 ≤ Z.of_nat i < Z.of_nat (length l))) as [Hi|Hi].
  - rewrite Nat2Z.id. destruct (l !! i); split; congruence.
  - split; [done|]. intros Hl%lookup_lt_Some. lia.
Qed.

Lemma py_index_elem {A} (l : list A) (i : Z) (a : A) :
  py_index l i = Ok a → a ∈ l.
Proof.
  unfold py_index.
  destruct (decide (0 ≤ _ < _)); [|done].
  destruct (l !! _) as [b|] eqn:E; [|done].
  intros [= <-]. by eapply list_elem_of_lookup_2.
Qed.

Lemma client_fn_Ok (context : Context) (st st' : globals G) (c : FlowerClient image) :
  client_fn context st = Ok (c, st') →
  node_config context !! "partition-id" = Some (client_id c)
  ∧ py_index (client_strategies st) (client_id c) = Ok (ipd_strategy c)
  ∧ players st' = alter (set_seed SEED) (ipd_strategy c) (players st)
  ∧ client_strategies st' = client_strategies st
  ∧ NUM_PARTITIONS st' = NUM_PARTITIONS st.
Proof.
  unfold client_fn, py_getitem.
  destruct (node_config context !! "partition-id") as [i|]; simpl; [|done].
  destruct (load_partition (fds st) i "train") as [d|]; simpl; [|done].
  destruct (train_test_split d 0.1 SEED) as [tv|]; simpl; [|done].
  destruct (py_index (client_strategies st) i) as [r|] eqn:Hr; simpl; [|done].
  intros [= <- <-]. simpl. done.
Qed.

Lemma client_fn_returns (context : Context) (st : globals G) (i : nat) d tv r :
  node_config context !! "partition-id" = Some (Z.of_nat i) →
  load_partition (fds st) (Z.of_nat i) "train" = Ok d →
  train_test_split d 0.1 SEED = Ok tv →
  client_strategies st !! i = Some r →
  ∃ c st', client_fn context st = Ok (c, st').
Proof.
  intros Hi Hd Htv Hr. unfold client_fn, py_getitem.
  rewrite Hi. simpl. rewrite Hd. simpl. rewrite Htv. simpl.
  apply py_index_Ok in Hr. rewrite Hr. simpl. eauto.
Qed.

Lemma players_alter_name (f := set_seed SEED) (ps : gmap nat Player) (r r' : nat) :
  name <$> alter f r ps !! r' = name <$> ps !! r'.
Proof.
  destruct (decide (r = r')) as [->|Hne].
  - rewrite lookup_alter_eq. by destruct (ps !! r').
  - by rewrite lookup_alter_ne.
Qed.

(** What the calls of [client_fn] preserve. *)
Lemma serve_preserves (contexts : list Context) (st : globals G) :
  client_strategies (serve contexts st) = client_strategies st
  ∧ NUM_PARTITIONS (serve contexts st) = NUM_PARTITIONS st
  ∧ (∀ r, name <$> players (serve contexts st) !! r = name <$> players st !! r)
  ∧ (bound st → bound (serve contexts st)).
Proof.
  revert st. induction contexts as [|context contexts IH]; intros st; [done|].
  simpl. destruct (client_fn context st) as [[c st']|e] eqn:Hc; [|apply IH].
  apply client_fn_Ok in Hc as (_ & _ & Hp & Hcs & Hn).
  destruct (IH st') as (IH1 & IH2 & IH3 & IH4).
  rewrite IH1, IH2, Hcs, Hn. split_and!; [done..| |].
  - intros r. rewrite IH3, Hp. apply players_alter_name.
  - intros Hb. apply IH4. unfold bound in *. rewrite Hcs, Hp.
    eapply Forall_impl; [exact Hb|]. intros r [p Hr]. simpl.
    destruct (decide (ipd_strategy c = r)) as [->|Hne].
    + rewrite lookup_alter_eq, Hr. by eexists.
    + rewrite lookup_alter_ne by done. by eexists.
Qed.

Lemma module_init_bound (g : G) : bound (module_init g).
Proof.
  unfold bound. rewrite client_strategies_Permutation, module_init_players.
  apply Forall_forall. intros r Hr%elem_of_seq.
  rewrite lookup_map_seq_0. apply lookup_lt_is_Some.
  rewrite created_length. lia.
Qed.

Lemma script_globals (g : G) : (script g).2 = sow_seed SEED (module_init g).
Proof. done. Qed.

Lemma script_bound (g : G) : bound (script g).2.
Proof. apply (module_init_bound g). Qed.

End ClientFacts.

(** ** Start-up and clients: claims C4, C5 and C6 *)

(** C4, what the code does. The strategy list is shuffled while the module
    is imported, with the generator as the interpreter left it; the seed is
    sown afterwards. Two runs whose generators start with different first
    draws bind the last partition id to different players, although both
    runs end up with the generator that [SEED] installs. *)
Theorem shuffle_precedes_seeding {G : Type} `{!Random G} `{!RandomLaws G}
    {raw image P ndarray Parameters T : Type}
    `{!Libraries raw image P ndarray Parameters T} (g1 g2 : G) :
  memory_one ≠ [] →
  (randbelow g1 (S (length memory_one))).1 ≠ (randbelow g2 (S (length memory_one))).1 →
  random_state (script g1).2 = rng_seed SEED
  ∧ random_state (script g2).2 = rng_seed SEED
  ∧ client_strategies (script g1).2 !! length memory_one
    ≠ client_strategies (script g2).2 !! length memory_one.
Proof.
  intros Hne Hdraw. split_and!; [done..|].
  rewrite !script_globals. simpl. rewrite !module_init_client_strategies.
  destruct memory_one as [|s l]; [done|]. simpl length in *.
  rewrite !(random_shuffle_last _ _ (length l)) by by rewrite length_seq.
  pose proof (randbelow_lt g1 (S (S (length l))) ltac:(lia)) as H1.
  pose proof (randbelow_lt g2 (S (S (length l))) ltac:(lia)) as H2.
  rewrite !lookup_seq_lt by done. simpl. congruence.
Qed.

Lemma shuffle_precedes_seeding_witness :
  client_strategies (script (G := list nat) (Parameters := list Z) [ 0%nat ]).2 !! 2%nat
  ≠ client_strategies (script (G := list nat) (Parameters := list Z) [ 2%nat ]).2 !! 2%nat.
Proof.
  refine (proj2 (proj2 (shuffle_precedes_seeding (G := list nat)
                          (Parameters := list Z) [ 0%nat ] [ 2%nat ] _ _))).
  - discriminate.
  - vm_compute. discriminate.
Defined.

(** On the sample libraries: the generator tapes [0] and [2] give the
    partition id 2 the strategies "Tit For Tat" and "Random". *)
Example startup_order_example :
  let run g := (script (G := list nat) (Parameters := list Z) g).2 in
  map (strategy_name (run [ 0%nat ])) [ 0; 1; 2 ]%nat
  = [ Some "Win-Stay Lose-Shift"; Some "Random"; Some "Tit For Tat" ]
  ∧ map (strategy_name (run [ 2%nat ])) [ 0; 1; 2 ]%nat
    = [ Some "Win-Stay Lose-Shift"; Some "Tit For Tat"; Some "Random" ]
  ∧ random_state (run [ 0%nat ]) = random_state (run [ 2%nat ]).
Proof. vm_compute. done. Qed.

(** C5, what the code does. Whatever the partition id and whatever calls
    came before, the strategy of the client that [client_fn] returns has
    been given the seed [SEED], which is 42. *)
Theorem client_seed_is_SEED {G : Type} `{!Random G} `{!RandomLaws G}
    {raw image P ndarray Parameters T : Type}
    `{!Libraries raw image P ndarray Parameters T}
    (g : G) (contexts : list Context) (context : Context)
    (c : FlowerClient image) (st' : globals G) :
  client_fn context (serve contexts (script g).2) = Ok (c, st') →
  seed_given c st' = Some SEED ∧ SEED = 42.
Proof.
  intros Hc. split; [|done].
  pose proof (proj2 (proj2 (proj2 (serve_preserves contexts (script g).2)))
                (script_bound g)) as Hb.
  apply client_fn_Ok in Hc as (_ & Hr & Hp & _).
  unfold seed_given. rewrite Hp, lookup_alter_eq.
  assert (is_Some (players (serve contexts (script g).2) !! ipd_strategy c)) as [p Hp'].
  { unfold bound in Hb. rewrite Forall_forall in Hb. apply Hb.
    by eapply py_index_elem. }
  by rewrite Hp'.
Qed.

Lemma client_seed_is_SEED_witness :
  ∃ c st', client_fn (sample_context 1) sample_globals = Ok (c, st')
           ∧ seed_given c st' = Some 42.
Proof.
  destruct (client_fn (sample_context 1) sample_globals) as [[c st']|e] eqn:Hc.
  - exists c, st'. split; [done|].
    exact (proj1 (client_seed_is_SEED (G := list nat) (Parameters := list Z)
                    [ 1%nat; 0%nat ] [] (sample_context 1) c st' Hc)).
  - vm_compute in Hc. discriminate Hc.
Defined.

(** C5 as stated fails: the clients of the partition ids 0 and 1, made one
    after the other, are given the same seed. *)
Lemma client_seed_counterexample :
  ¬ (∀ (i j : Z) (st : globals (list nat)) c1 st1 c2 st2,
       i ≠ j →
       client_fn (sample_context i) st = Ok (c1, st1) →
       client_fn (sample_context j) st1 = Ok (c2, st2) →
       seed_given c1 st1 ≠ seed_given c2 st2).
Proof.
  intros H.
  destruct (client_fn (sample_context 0) sample_globals) as [[c1 st1]|e] eqn:H1;
    [|vm_compute in H1; discriminate H1].
  destruct (client_fn (sample_context 1) st1) as [[c2 st2]|e] eqn:H2.
  - apply (H 0 1 sample_globals c1 st1 c2 st2); [done..|].
    revert H2. vm_compute in H1. injection H1 as <- <-.
    intros H2. vm_compute in H2. injection H2 as <- <-.
    vm_compute. reflexivity.
  - revert H2. vm_compute in H1. injection H1 as <- <-.
    intros H2. vm_compute in H2. discriminate H2.
Qed.

(** C6. After start-up the number of partitions is the length of the
    strategy list, it is the number of partitions of the partitioner of the
    dataset and the number of nodes of the simulation, and the list holds
    every created player once. Calls of [client_fn] change neither the
    list nor the names of the players. For a partition id [i] below
    [NUM_PARTITIONS] the list has a player at index [i], [client_fn] returns
    a client as soon as the partition loads and splits, and the client it
    returns has id [i] and the strategy at index [i]. *)
Theorem one_strategy_per_partition {G : Type} `{!Random G} `{!RandomLaws G}
    {raw image P ndarray Parameters T : Type}
    `{!Libraries raw image P ndarray Parameters T}
    (g : G) (contexts : list Context) :
  let st0 := (script g).2 in
  let st := serve contexts st0 in
  NUM_PARTITIONS st0 = length (client_strategies st0)
  ∧ NUM_PARTITIONS st0 = S (length memory_one)
  ∧ fd_partitioners (fds st0) !! "train" = Some (dirichlet_partitioner st0)
  ∧ num_partitions_of (dirichlet_partitioner st0) = NUM_PARTITIONS st0
  ∧ num_supernodes (script g).1 = NUM_PARTITIONS st0
  ∧ client_strategies st0 ≡ₚ seq 0 (NUM_PARTITIONS st0)
  ∧ client_strategies st = client_strategies st0
  ∧ NUM_PARTITIONS st = NUM_PARTITIONS st0
  ∧ (∀ r, name <$> players st !! r = name <$> players st0 !! r)
  ∧ ∀ (i : nat) (context : Context),
      (i < NUM_PARTITIONS st0)%nat →
      node_config context !! "partition-id" = Some (Z.of_nat i) →
      (∃ r p, client_strategies st !! i = Some r ∧ players st !! r = Some p)
      ∧ (∀ d tv,
           load_partition (fds st) (Z.of_nat i) "train" = Ok d →
           train_test_split d 0.1 SEED = Ok tv →
           ∃ c st', client_fn context st = Ok (c, st'))
      ∧ (∀ c st',
           client_fn context st = Ok (c, st') →
           client_id c = Z.of_nat i
           ∧ client_strategies st !! i = Some (ipd_strategy c)).
Proof.
  intros st0 st.
  destruct (module_init_partitioners g) as (_ & Hdir & Hfds).
  pose proof (module_init_NUM_PARTITIONS g) as Hnum.
  pose proof (client_strategies_length g) as Hlen.
  destruct (serve_preserves contexts st0) as (Hcs & Hn & Hnames & Hbound).
  specialize (Hbound (script_bound g)). fold st0 st in Hcs, Hn, Hnames, Hbound.
  assert (Hst0 : st0 = sow_seed SEED (module_init g)) by done.
  assert (HN : NUM_PARTITIONS st0 = NUM_PARTITIONS (module_init g)) by done.
  assert (HC : client_strategies st0 = client_strategies (module_init g)) by done.
  split_and!.
  - by rewrite HN, HC.
  - by rewrite HN, Hnum.
  - rewrite Hst0. simpl. rewrite Hfds. simpl. by rewrite lookup_singleton_eq.
  - rewrite Hst0. simpl. by rewrite Hdir.
  - done.
  - rewrite HC, HN, Hnum, Hlen. apply client_strategies_Permutation.
  - done.
  - done.
  - done.
  - intros i context Hi Hid.
    assert (is_Some (client_strategies st !! i)) as [r Hr].
    { apply lookup_lt_is_Some. rewrite Hcs, HC, <-Hnum, <-HN. done. }
    split_and!.
    + unfold bound in Hbound. rewrite Forall_forall in Hbound.
      destruct (Hbound r) as [p Hp]; [by eapply list_elem_of_lookup_2|].
      by exists r, p.
    + intros d tv Hd Htv. by eapply client_fn_returns.
    + intros c st' Hc. apply client_fn_Ok in Hc as (Hid' & Hidx & _).
      assert (client_id c = Z.of_nat i) as Hci by congruence.
      split; [done|]. rewrite Hci in Hidx. by apply py_index_Ok.
Qed.

Lemma one_strategy_per_partition_witness :
  ∃ c st', client_fn (sample_context 1) sample_globals = Ok (c, st')
           ∧ client_id c = 1
           ∧ client_strategies sample_globals !! 1%nat = Some (ipd_strategy c).
Proof.
  pose proof (one_strategy_per_partition (G := list nat) (Parameters := list Z)
                [ 1%nat; 0%nat ] []) as H.
  cbv zeta in H. destruct H as (_ & _ & _ & _ & _ & _ & _ & _ & _ & H).
  destruct (H 1%nat (sample_context 1)) as (_ & Hret & Hbind).
  - vm_compute. lia.
  - vm_compute. reflexivity.
  - destruct (Hret [ (1, 0); (2, 1); (3, 0); (4, 1) ]
                   ([ (1, 0); (2, 1); (3, 0) ], [ (4, 1) ]))
      as (c & st' & Hc); [reflexivity..|].
    exists c, st'. split; [exact Hc|]. exact (Hbind c st' Hc).
Defined.

(** ** The server: claims C7 and C8 *)

Lemma orchestrator_run_add (rounds : Z) (a b : nat) (o : orchestrator) :
  orchestrator_run rounds (a + b) o
  = orchestrator_run rounds b (orchestrator_run rounds a o).
Proof.
  revert o. induction a as [|a IH]; intros o; [done|]. simpl. apply IH.
Qed.

Lemma orchestrator_run_within (rounds i : Z) (r : nat) :
  (r ≤ 7)%nat →
  orchestrator_run rounds r {| state := TOURNAMENT; iterations := i |}
  = {| state := within_round r; iterations := i |}.
Proof.
  intros Hr. do 8 (destruct r as [|r]; [reflexivity|]). lia.
Qed.

Lemma orchestrator_run_round (rounds i : Z) :
  orchestrator_run rounds 8 {| state := TOURNAMENT; iterations := i |}
  = {| state := if decide (i + 1 < rounds) then NEXT_ROUND else TERMINATE;
       iterations := i + 1 |}.
Proof. reflexivity. Qed.

(** The [q]-th round starts after [1 + 9 * q] transitions. *)
Lemma orchestrator_round_start (rounds : Z) (q : nat) :
  Z.of_nat q < rounds →
  orchestrator_run rounds (1 + 9 * q) orchestrator_start
  = {| state := TOURNAMENT; iterations := Z.of_nat q |}.
Proof.
  induction q as [|q IH]; intros Hq; [reflexivity|].
  replace (1 + 9 * S q)%nat with ((1 + 9 * q) + (8 + 1))%nat by lia.
  rewrite orchestrator_run_add, IH by lia.
  rewrite orchestrator_run_add, orchestrator_run_round.
  rewrite decide_True by lia. simpl. unfold orchestrator_step. simpl.
  f_equal. lia.
Qed.

(** An orchestrator configured with [rounds] rounds, at least one, is in
    the state [TERMINATE] with [rounds] completed iterations after
    [9 * rounds] transitions, and in no earlier one. *)
Lemma orchestrator_terminates (rounds : nat) :
  (0 < rounds)%nat →
  orchestrator_run (Z.of_nat rounds) (9 * rounds) orchestrator_start
  = {| state := TERMINATE; iterations := Z.of_nat rounds |}
  ∧ ∀ k, (k < 9 * rounds)%nat →
      state (orchestrator_run (Z.of_nat rounds) k orchestrator_start) ≠ TERMINATE.
Proof.
  intros Hpos. split.
  - replace (9 * rounds)%nat with ((1 + 9 * (rounds - 1)) + 8)%nat by lia.
    rewrite orchestrator_run_add, orchestrator_round_start by lia.
    rewrite orchestrator_run_round. rewrite decide_False by lia.
    f_equal. lia.
  - intros k Hk. destruct k as [|k]; [done|].
    pose proof (Nat.div_mod_eq k 9) as Hdiv.
    pose proof (Nat.mod_upper_bound k 9 ltac:(lia)) as Hmod.
    set (q := (k `div` 9)%nat) in *. set (r := (k `mod` 9)%nat) in *.
    replace (S k) with ((1 + 9 * q) + r)%nat by lia.
    rewrite orchestrator_run_add, orchestrator_round_start by lia.
    destruct (decide (r = 8%nat)) as [->|Hr].
    + rewrite orchestrator_run_round. simpl. rewrite decide_True by lia. done.
    + rewrite orchestrator_run_within by lia. simpl.
      do 8 (destruct r as [|r]; [done|]). lia.
Qed.

(** C7. The configuration that [server_fn] hands over carries the module
    constant [num_rounds], which is 20; an orchestrator run with this
    configuration and without failure reaches [TERMINATE] after 20
    completed iterations, and not before. *)
Theorem run_terminates_after_num_rounds
    {raw image P ndarray Parameters T : Type}
    `{!Libraries raw image P ndarray Parameters T} (context : Context) (t : T) :
  let components := (server_fn context t).1 in
  config_num_rounds (config components) = num_rounds
  ∧ num_rounds = 20
  ∧ ∃ k,
      orchestrate components k = {| state := TERMINATE; iterations := 20 |}
      ∧ ∀ j, (j < k)%nat → state (orchestrate components j) ≠ TERMINATE.
Proof.
  intros components. subst components. unfold server_fn.
  destruct (Net 10 t) as [model t']. split_and!; [done..|].
  exists (9 * 20)%nat. exact (orchestrator_terminates 20 ltac:(lia)).
Qed.

(** [get_params] returns one array per entry of the [state_dict], in the
    order of the entries: the value of each. *)
Lemma get_params_lookup {raw image P ndarray Parameters T : Type}
    `{!Libraries raw image P ndarray Parameters T} (model : P) :
  length (get_params model) = length (state_dict_items model)
  ∧ ∀ (i : nat) (key : string) (val : ndarray),
      state_dict_items model !! i = Some (key, val) →
      get_params model !! i = Some val.
Proof.
  unfold get_params. split.
  - by rewrite length_map.
  - intros i key val Hi. by rewrite list_lookup_fmap, Hi.
Qed.

(** C8. Called with torch's generator in the state [t], [server_fn] builds
    a new model [Net(num_classes=10)], whose weights are drawn from the
    generator, and a [FedAvg] strategy
    - whose fractions are the literals 0.5 for fit and 0.1 for evaluate,
      the binary64 values of 1/2 and of 1/10;
    - whose aggregation of evaluation metrics is [weighted_average];
    - whose initial parameters are the conversion of the arrays of the new
      model: one array for each entry of its [state_dict], in the order of
      the entries.
    The call leaves the generator where the construction of the model left
    it, so that the initial parameters of a later call are those of another
    draw; the fractions and the aggregation are the same for every context
    and every state of the generator. *)
Theorem server_strategy_configuration
    {raw image P ndarray Parameters T : Type}
    `{!Libraries raw image P ndarray Parameters T} (context : Context) (t : T) :
  let fedavg := strategy (server (server_fn context t).1) in
  let model := (Net 10 t).1 in
  fraction_fit fedavg = 0.5%float
  ∧ fraction_evaluate fedavg = 0.1%float
  ∧ fraction_fit fedavg = b64_int_div 1 2
  ∧ fraction_evaluate fedavg = b64_int_div 1 10
  ∧ evaluate_metrics_aggregation_fn fedavg = Some weighted_average
  ∧ (∃ ndarrays : list ndarray,
       initial_parameters fedavg = Some (ndarrays_to_parameters ndarrays)
       ∧ length ndarrays = length (state_dict_items model)
       ∧ ∀ (i : nat) (key : string) (val : ndarray),
           state_dict_items model !! i = Some (key, val) →
           ndarrays !! i = Some val)
  ∧ (server_fn context t).2 = (Net 10 t).2
  ∧ ∀ (context' : Context) (t' : T),
      let fedavg' := strategy (server (server_fn context' t').1) in
      fraction_fit fedavg' = fraction_fit fedavg
      ∧ fraction_evaluate fedavg' = fraction_evaluate fedavg
      ∧ evaluate_metrics_aggregation_fn fedavg'
        = evaluate_metrics_aggregation_fn fedavg.
Proof.
  intros fedavg model. subst fedavg model. unfold server_fn.
  destruct (Net 10 t) as [model t1]. simpl.
  split_and!; try done.
  - exists (get_params model). split; [done|]. apply get_params_lookup.
  - intros context' t'. by destruct (Net 10 t') as [model' t2].
Qed.

Lemma server_strategy_configuration_witness :
  let fedavg :=
    strategy (server (server_fn (Parameters := list Z) (sample_context 0) 5).1) in
  initial_parameters fedavg = Some [ 15 ]
  ∧ fraction_fit fedavg = 0.5%float
  ∧ fraction_evaluate fedavg = 0.1%float
  ∧ (server_fn (Parameters := list Z) (sample_context 0) 5).2 = 6.
Proof.
  intros fedavg. subst fedavg.
  destruct (server_strategy_configuration (Parameters := list Z)
              (sample_context 0) 5)
    as (Hfit & Hevaluate & _ & _ & _ & (ndarrays & Hinit & Hlen & Hval) & Hgen & _).
  split_and!; [|exact Hfit|exact Hevaluate|exact Hgen].
  rewrite Hinit. f_equal.
  specialize (Hval 0%nat "fc.weight" 15 eq_refl).
  destruct ndarrays as [|a [|b ndarrays]]; simpl in *; [done| |done].
  injection Hval as ->. reflexivity.
Defined.

(** On the sample libraries, two calls of [server_fn] in a row build
    strategies with the same fractions and different initial parameters. *)
Example server_fn_twice :
  let first := server_fn (Parameters := list Z) (sample_context 0) 0 in
  let second := server_fn (Parameters := list Z) (sample_context 0) first.2 in
  initial_parameters (strategy (server first.1)) = Some [ 10 ]
  ∧ initial_parameters (strategy (server second.1)) = Some [ 11 ]
  ∧ fraction_fit (strategy (server second.1))
    = fraction_fit (strategy (server first.1)).
Proof. vm_compute. done. Qed.

(** * Further properties *)

(** ** Aggregation: ill-formed reports, order, scale and composition *)





Lemma weighted_average_reported_zero {F : Type} `{!Arith F}
    (ms : list (Z * Metrics F)) (nas : list (Z * F)) :
  reported ms nas → fits (0 :: map fst nas) → total nas = 0 →
  weighted_average ms = Raise ZeroDivisionError.
Proof.
  intros Hrep Hfit Htot. apply Forall_cons in Hfit as [H0 Hfit].
  assert (Hz : py_sum_int (map fst ms) = 0).
  { change (map fst ms) with (map (λ '(num_examples, _), num_examples) ms).
    by rewrite (reported_counts _ _ Hrep), py_sum_int_total. }
  unfold weighted_average. rewrite (reported_products _ _ Hrep Hfit). simpl.
  destruct nas as [|q nas'] eqn:E.
  - apply Forall2_nil_inv_r in Hrep as ->. done.
  - rewrite <-E in *. rewrite py_sum_products by (done || by rewrite E).
    simpl. change (map _ ms) with (map fst ms). rewrite Hz. done.
Qed.

Section ExactAggregation.
#[local] Open Scope Qc_scope.

Lemma Qc_of_Z_nonzero (z : Z) : z ≠ 0%Z → Qc_of_Z z ≠ 0.
Proof. intros Hz. rewrite <-Z2Qc_inj_0. by intros ?%Z2Qc_inj. Qed.

(** In exact arithmetic [weighted_average] is the quotient of the two
    sums, or [ZeroDivisionError]. *)
Lemma weighted_average_exact (ms : list (Z * Metrics Qc)) (nas : list (Z * Qc)) :
  reported ms nas →
  weighted_average ms
  = if decide (total nas = 0%Z) then Raise ZeroDivisionError
    else Ok {[ "accuracy" := SFloat (weighted_total nas / Qc_of_Z (total nas)) ]}.
Proof.
  intros Hrep.
  assert (Hfit : ∀ zs, fits (F := Qc) zs) by (intros zs; by apply Forall_forall).
  case_decide as Htot.
  - by apply (weighted_average_reported_zero ms nas).
  - assert (nas ≠ []) by (by intros ->).
    rewrite (weighted_average_reported ms nas) by done.
    unfold weighted_mean. by rewrite weighted_sum_exact.
Qed.

Lemma Qc_sum_Permutation (l k : list Qc) : l ≡ₚ k → Qc_sum l = Qc_sum k.
Proof.
  induction 1 as [|x l k _ IH|x y l|l k j _ IH1 _ IH2]; simpl.
  - done.
  - by rewrite IH.
  - ring.
  - by rewrite IH1.
Qed.

Lemma total_Permutation (nas nas' : list (Z * Qc)) :
  nas ≡ₚ nas' → total nas = total nas'.
Proof.
  induction 1 as [|x l k _ IH|x y l|l k j _ IH1 _ IH2]; simpl; lia.
Qed.

Lemma Qc_sum_app (l k : list Qc) : Qc_sum (l ++ k) = Qc_sum l + Qc_sum k.
Proof.
  induction l as [|x l IH]; simpl.
  - rewrite Z2Qc_inj_0. ring.
  - rewrite IH. ring.
Qed.

Lemma total_app (nas nas' : list (Z * Qc)) :
  total (nas ++ nas') = (total nas + total nas')%Z.
Proof. induction nas as [|q nas IH]; simpl; lia. Qed.

Lemma weighted_total_app (nas nas' : list (Z * Qc)) :
  weighted_total (nas ++ nas') = weighted_total nas + weighted_total nas'.
Proof. unfold weighted_total. by rewrite map_app, Qc_sum_app. Qed.

Lemma weighted_total_Permutation (nas nas' : list (Z * Qc)) :
  nas ≡ₚ nas' → weighted_total nas = weighted_total nas'.
Proof. intros H. unfold weighted_total. apply Qc_sum_Permutation. by rewrite H. Qed.

Lemma reported_Permutation {F} (ms ms' : list (Z * Metrics F)) (nas : list (Z * F)) :
  reported ms nas → ms ≡ₚ ms' → ∃ nas', reported ms' nas' ∧ nas ≡ₚ nas'.
Proof.
  intros Hrep Hperm. revert nas Hrep.
  induction Hperm as [|x l k _ IH|x y l|l k j _ IH1 _ IH2]; intros nas Hrep.
  - apply Forall2_nil_inv_l in Hrep as ->. exists []. split; [constructor|done].
  - apply Forall2_cons_inv_l in Hrep as (q & nas0 & Hq & Hrep & ->).
    destruct (IH _ Hrep) as (nas' & Hrep' & Hp).
    exists (q :: nas'). split; [by constructor|by constructor].
  - apply Forall2_cons_inv_l in Hrep as (qy & nas1 & Hy & Hrep & ->).
    apply Forall2_cons_inv_l in Hrep as (qx & nas0 & Hx & Hrep & ->).
    exists (qx :: qy :: nas0). split; [|apply perm_swap].
    constructor; [done|]. by constructor.
  - destruct (IH1 _ Hrep) as (nas1 & Hrep1 & Hp1).
    destruct (IH2 _ Hrep1) as (nas2 & Hrep2 & Hp2).
    exists nas2. split; [done|by etrans].
Qed.

Lemma reported_app {F} (ms1 ms2 : list (Z * Metrics F)) (nas1 nas2 : list (Z * F)) :
  reported ms1 nas1 → reported ms2 nas2 → reported (ms1 ++ ms2) (nas1 ++ nas2).
Proof. apply Forall2_app. Qed.

End ExactAggregation.

(** In exact arithmetic the order in which the clients are listed does not
    change what [weighted_average] returns or raises. *)
Theorem client_order_exact (ms ms' : list (Z * Metrics Qc)) (nas : list (Z * Qc)) :
  reported ms nas → ms ≡ₚ ms' → weighted_average ms' = weighted_average ms.
Proof.
  intros Hrep Hperm.
  destruct (reported_Permutation _ _ _ Hrep Hperm) as (nas' & Hrep' & Hp).
  rewrite (weighted_average_exact _ _ Hrep), (weighted_average_exact _ _ Hrep').
  by rewrite (total_Permutation _ _ Hp), (weighted_total_Permutation _ _ Hp).
Qed.

Lemma client_order_exact_witness :
  weighted_average (F := Qc)
    [ (3, {[ "accuracy" := SFloat (Qc_of_Z 1) ]});
      (1, {[ "accuracy" := SFloat (Qc_of_Z 0) ]}) ]
  = weighted_average (F := Qc)
      [ (1, {[ "accuracy" := SFloat (Qc_of_Z 0) ]});
        (3, {[ "accuracy" := SFloat (Qc_of_Z 1) ]}) ].
Proof.
  refine (client_order_exact _ _ [ (1, Qc_of_Z 0); (3, Qc_of_Z 1) ] _ _).
  - repeat constructor; vm_compute; reflexivity.
  - apply perm_swap.
Defined.

(** Under binary64 the order shows in the last bits: three clients with
    31 of 39, 15 of 22 and 8 of 11 examples right average to 0.75 or to
    0.7499999999999999. *)
Example client_order_binary64 :
  let a := {[ "accuracy" := SFloat (b64_int_div 31 39) ]} : Metrics float in
  let b := {[ "accuracy" := SFloat (b64_int_div 15 22) ]} : Metrics float in
  let c := {[ "accuracy" := SFloat (b64_int_div 8 11) ]} : Metrics float in
  weighted_average [ (39, a); (22, b); (11, c) ]
  = Ok {[ "accuracy" := SFloat 0.7499999999999999%float ]}
  ∧ weighted_average [ (11, c); (22, b); (39, a) ]
    = Ok {[ "accuracy" := SFloat 0.75%float ]}.
Proof. vm_compute. done. Qed.

(** In exact arithmetic the result does not change when every example
    count is multiplied by the same non-zero factor. *)
Theorem count_scale_exact (k : Z) (ms : list (Z * Metrics Qc)) (nas : list (Z * Qc)) :
  k ≠ 0 → reported ms nas →
  weighted_average (map (λ p, (k * p.1, p.2)) ms) = weighted_average ms.
Proof.
  intros Hk Hrep.
  assert (Hrep' : reported (map (λ p : Z * Metrics Qc, (k * p.1, p.2)) ms)
                    (map (λ q : Z * Qc, (k * q.1, q.2)) nas)).
  { unfold reported. apply Forall2_fmap. eapply Forall2_impl; [exact Hrep|].
    intros p q [H1 H2]. simpl. by rewrite H1. }
  rewrite (weighted_average_exact _ _ Hrep), (weighted_average_exact _ _ Hrep').
  assert (Htot : total (map (λ q : Z * Qc, (k * q.1, q.2)) nas) = k * total nas).
  { clear. induction nas as [|q nas IH]; simpl; [lia|]. rewrite IH. lia. }
  assert (Hw : weighted_total (map (λ q : Z * Qc, (k * q.1, q.2)) nas)
               = (Qc_of_Z k * weighted_total nas)%Qc).
  { clear. unfold weighted_total. induction nas as [|q nas IH]; simpl.
    - rewrite Z2Qc_inj_0. ring.
    - rewrite IH, Z2Qc_inj_mul. ring. }
  rewrite Htot, Hw. repeat case_decide; try lia; [done|].
  do 3 f_equal. rewrite Z2Qc_inj_mul.
  pose proof (Qc_of_Z_nonzero k Hk). pose proof (Qc_of_Z_nonzero (total nas)).
  field. split; auto.
Qed.

Lemma count_scale_exact_witness :
  weighted_average (F := Qc)
    [ (6, {[ "accuracy" := SFloat (Qc_of_Z 1) ]});
      (2, {[ "accuracy" := SFloat (Qc_of_Z 0) ]}) ]
  = weighted_average (F := Qc)
      [ (3, {[ "accuracy" := SFloat (Qc_of_Z 1) ]});
        (1, {[ "accuracy" := SFloat (Qc_of_Z 0) ]}) ].
Proof.
  refine (count_scale_exact 2 [ (3, _); (1, _) ]
            [ (3, Qc_of_Z 1); (1, Qc_of_Z 0) ] _ _).
  - lia.
  - repeat constructor; vm_compute; reflexivity.
Defined.

(** In exact arithmetic aggregation composes: averaging two groups of
    clients and then the two averages, each with the number of examples of
    its group, gives the average over all the clients. *)
Theorem aggregate_of_aggregates_exact
    (ms1 ms2 : list (Z * Metrics Qc)) (nas1 nas2 : list (Z * Qc)) :
  reported ms1 nas1 → reported ms2 nas2 →
  total nas1 ≠ 0 → total nas2 ≠ 0 →
  ∃ r1 r2,
    weighted_average ms1 = Ok r1
    ∧ weighted_average ms2 = Ok r2
    ∧ weighted_average (ms1 ++ ms2)
      = weighted_average [ (total nas1, r1); (total nas2, r2) ].
Proof.
  intros Hrep1 Hrep2 H1 H2.
  eexists _, _. split_and!.
  - rewrite (weighted_average_exact _ _ Hrep1). by rewrite decide_False.
  - rewrite (weighted_average_exact _ _ Hrep2). by rewrite decide_False.
  - rewrite (weighted_average_exact _ _ (reported_app _ _ _ _ Hrep1 Hrep2)).
    rewrite (weighted_average_exact _
               [ (total nas1, (weighted_total nas1 / Qc_of_Z (total nas1))%Qc);
                 (total nas2, (weighted_total nas2 / Qc_of_Z (total nas2))%Qc) ]).
    2:{ repeat constructor; simpl; by rewrite lookup_singleton_eq. }
    rewrite total_app, weighted_total_app. simpl. rewrite Z.add_0_r.
    case_decide as Hz; [done|]. do 3 f_equal.
    unfold weighted_total at 3. simpl.
    rewrite Z2Qc_inj_0, Z2Qc_inj_add.
    pose proof (Qc_of_Z_nonzero _ H1). pose proof (Qc_of_Z_nonzero _ H2).
    pose proof (Qc_of_Z_nonzero _ Hz) as H12. rewrite Z2Qc_inj_add in H12.
    field. split_and!; auto.
Qed.

Lemma aggregate_of_aggregates_exact_witness :
  ∃ r1 r2,
    weighted_average (F := Qc) [ (3, {[ "accuracy" := SFloat (Qc_of_Z 1) ]}) ] = Ok r1
    ∧ weighted_average (F := Qc) [ (1, {[ "accuracy" := SFloat (Qc_of_Z 0) ]}) ] = Ok r2
    ∧ weighted_average (F := Qc)
        [ (3, {[ "accuracy" := SFloat (Qc_of_Z 1) ]});
          (1, {[ "accuracy" := SFloat (Qc_of_Z 0) ]}) ]
      = weighted_average [ (3, r1); (1, r2) ].
Proof.
  refine (aggregate_of_aggregates_exact
            [ (3, _) ] [ (1, _) ] [ (3, Qc_of_Z 1) ] [ (1, Qc_of_Z 0) ] _ _ _ _).
  - repeat constructor; vm_compute; reflexivity.
  - repeat constructor; vm_compute; reflexivity.
  - vm_compute. discriminate.
  - vm_compute. discriminate.
Defined.


(** ** Evaluation: what the accuracy depends on *)

Section EvaluationExtras.
Context {F image P : Type} `{!Arith F} `{!Torch F image P} `{!TorchLaws F image P}.

Lemma correctly_classified_bounds (p : P) (l : list (image * Z)) :
  0 ≤ correctly_classified p l ≤ Z.of_nat (length l).
Proof.
  unfold correctly_classified. pose proof (length_filter
    (λ x : image * Z, argmax (logits p x.1) = x.2) l). lia.
Qed.

End EvaluationExtras.

(** The accuracy that [test] returns depends on the examples of the test
    set and on the [state_dict] of the network only: not on the batch size,
    not on shuffling or on the order of the examples, not on the mode the
    network was in, and not on the grad mode. *)
Theorem accuracy_independent_of_batching {F image P : Type}
    `{!Arith F} `{!Torch F image P} `{!TorchLaws F image P}
    (loader1 loader2 : DataLoader (image * Z)) (s1 s2 : torch_state P) :
  dataset loader1 ≡ₚ dataset loader2 →
  state_dict (net s1) = state_dict (net s2) →
  accuracy_of (test loader1 s1).1 = accuracy_of (test loader2 s2).1.
Proof.
  intros Hperm Hp. rewrite !test_unfold. simpl.
  rewrite Hp, (correctly_classified_perm _ _ _ Hperm), Hperm.
  by destruct (py_truediv _ _).
Qed.

Lemma accuracy_independent_of_batching_witness :
  accuracy_of (test (F := float)
    {| dataset := [ (1, 1); (5, 0); (7, 1) ]; batch_size := 2; shuffle := true |}
    {| net := {| state_dict := 3; training := true |}; grad_enabled := true |}).1
  = accuracy_of (test (F := float)
      {| dataset := [ (7, 1); (1, 1); (5, 0) ]; batch_size := 32; shuffle := false |}
      {| net := {| state_dict := 3; training := false |}; grad_enabled := false |}).1.
Proof.
  refine (accuracy_independent_of_batching (F := float) _ _ _ _ _ _).
  - simpl. symmetry. apply (Permutation_cons_append [ (1, 1); (5, 0) ] (7, 1)).
  - reflexivity.
Defined.



(** On a non-empty test set the accuracy is the true quotient
    [correct / size] of two integers with [0 <= correct <= size]: a single
    rounding of a rational between 0 and 1. *)
Theorem accuracy_is_a_fraction {F image P : Type}
    `{!Arith F} `{!Torch F image P} `{!TorchLaws F image P}
    (testloader : DataLoader (image * Z)) (s : torch_state P) :
  dataset testloader ≠ [] →
  ∃ correct size : Z,
    0 ≤ correct ≤ size ∧ 0 < size
    ∧ (0 ≤ Qc_of_Z correct / Qc_of_Z size ≤ 1)%Qc
    ∧ accuracy_of (test testloader s).1
      = if fl_int_div_overflow correct size then Raise OverflowError
        else Ok (fl_int_div correct size).
Proof.
  intros Hne.
  exists (correctly_classified (state_dict (net s)) (dataset testloader)),
         (Z.of_nat (length (dataset testloader))).
  pose proof (correctly_classified_bounds (state_dict (net s)) (dataset testloader))
    as Hb.
  assert (Hsize : 0 < Z.of_nat (length (dataset testloader))).
  { destruct (dataset testloader); [done|simpl; lia]. }
  split_and!; [lia|lia|done| | |].
  - unfold Qcdiv. apply Qcmult_nonneg_nonneg.
    + rewrite <-Z2Qc_inj_0. apply (proj1 (Z2Qc_inj_le _ _)). lia.
    + apply Qclt_le_weak, Qcinv_pos. rewrite <-Z2Qc_inj_0.
      by apply (proj1 (Z2Qc_inj_lt _ _)).
  - assert (0 < Qc_of_Z (Z.of_nat (length (dataset testloader))))%Qc as Hpos.
    { rewrite <-Z2Qc_inj_0. by apply (proj1 (Z2Qc_inj_lt _ _)). }
    apply (Qcmult_le_mono_pos_r _ _ _ Hpos).
    rewrite Qcmult_1_l. unfold Qcdiv.
    rewrite <-Qcmult_assoc, (Qcmult_comm (/ _)), Qcmult_inv_r, Qcmult_1_r.
    + apply (proj1 (Z2Qc_inj_le _ _)). lia.
    + by apply Qclt_not_eq in Hpos.
  - rewrite test_unfold. simpl. unfold py_truediv.
    rewrite decide_False by lia.
    by destruct (fl_int_div_overflow _ _).
Qed.

Lemma accuracy_is_a_fraction_witness :
  ∃ correct size : Z,
    0 ≤ correct ≤ size ∧ 0 < size
    ∧ (0 ≤ Qc_of_Z correct / Qc_of_Z size ≤ 1)%Qc
    ∧ accuracy_of (test (F := float)
        {| dataset := [ (1, 1); (5, 0); (7, 1) ]; batch_size := 2; shuffle := true |}
        {| net := {| state_dict := 3; training := true |}; grad_enabled := true |}).1
      = if fl_int_div_overflow (F := float) correct size then Raise OverflowError
        else Ok (fl_int_div correct size).
Proof.
  refine (accuracy_is_a_fraction (F := float) _ _ _). discriminate.
Defined.

(** ** Clients: partition ids out of range, seeds, sharing and repetition *)

Section ClientExtras.
Context {G : Type} `{!Random G} `{!RandomLaws G}.
Context {raw image P ndarray Parameters T : Type}.
Context `{!Libraries raw image P ndarray Parameters T}.



Lemma script_seeds_unset (g : G) (r : nat) (p : Player) :
  players (script g).2 !! r = Some p → seed p = None.
Proof.
  rewrite script_globals. simpl. rewrite module_init_players, lookup_map_seq_0.
  intros Hp. apply list_elem_of_lookup_2 in Hp.
  apply elem_of_app in Hp as [Hp|Hp%list_elem_of_singleton]; [|by subst].
  apply list_elem_of_fmap in Hp as (s & -> & _). done.
Qed.

Lemma serve_seeds (contexts : list Context) (st : globals G) :
  (∀ r p, players st !! r = Some p → seed p = None ∨ seed p = Some SEED) →
  ∀ r p, players (serve contexts st) !! r = Some p →
         seed p = None ∨ seed p = Some SEED.
Proof.
  revert st. induction contexts as [|context contexts IH]; intros st Hst; [done|].
  simpl. destruct (client_fn context st) as [[c st']|e] eqn:Hc; [|by apply IH].
  apply IH. intros r p. apply client_fn_Ok in Hc as (_ & _ & -> & _).
  destruct (decide (ipd_strategy c = r)) as [->|Hne].
  - rewrite lookup_alter_eq. destruct (players st !! r); [|done].
    intros [= <-]. by right.
  - rewrite lookup_alter_ne by done. apply Hst.
Qed.

End ClientExtras.



(** No player holds a seed after start-up, and after any calls of
    [client_fn] every player holds either no seed or the seed [SEED]. *)
Theorem seeds_are_unset_or_SEED {G : Type} `{!Random G} `{!RandomLaws G}
    {raw image P ndarray Parameters T : Type}
    `{!Libraries raw image P ndarray Parameters T}
    (g : G) (contexts : list Context) (r : nat) (p : Player) :
  players (serve contexts (script g).2) !! r = Some p →
  (contexts = [] → seed p = None) ∧ (seed p = None ∨ seed p = Some SEED).
Proof.
  intros Hp. split.
  - intros ->. by eapply script_seeds_unset.
  - eapply serve_seeds; [|exact Hp].
    intros r' p' Hp'. left. by eapply script_seeds_unset.
Qed.

Lemma seeds_are_unset_or_SEED_witness :
  ∃ p, players (serve [ sample_context 1 ] sample_globals) !! 0%nat = Some p
       ∧ (seed p = None ∨ seed p = Some SEED).
Proof.
  destruct (players (serve [ sample_context 1 ] sample_globals) !! 0%nat)
    as [p|] eqn:Hp; [|vm_compute in Hp; discriminate Hp].
  exists p. split; [done|].
  exact (proj2 (seeds_are_unset_or_SEED (G := list nat) (Parameters := list Z)
                  [ 1%nat; 0%nat ] [ sample_context 1 ] 0%nat p Hp)).
Defined.

(** The binding of partition ids to players is one to one: two distinct
    partition ids are never given the same player object, and every
    created player is the strategy of some partition id. *)
Theorem partitions_share_no_strategy {G : Type} `{!Random G} `{!RandomLaws G}
    {raw image P ndarray Parameters T : Type}
    `{!Libraries raw image P ndarray Parameters T}
    (g : G) (contexts : list Context) (i j : nat) (r : nat) :
  let st := serve contexts (script g).2 in
  client_strategies st !! i = Some r →
  (client_strategies st !! j = Some r → i = j)
  ∧ is_Some (players st !! r)
  ∧ ∀ r', is_Some (players st !! r') → ∃ k, client_strategies st !! k = Some r'.
Proof.
  intros st Hi.
  destruct (serve_preserves contexts (script g).2) as (Hcs & _ & Hnames & Hb).
  specialize (Hb (script_bound g)). fold st in Hcs, Hnames, Hb.
  assert (Hperm : client_strategies st ≡ₚ seq 0 (S (length memory_one))).
  { rewrite Hcs. apply (client_strategies_Permutation g). }
  assert (Hnodup : NoDup (client_strategies st)).
  { rewrite Hperm. apply NoDup_seq. }
  split_and!.
  - intros Hj. by eapply NoDup_lookup.
  - unfold bound in Hb. rewrite Forall_forall in Hb. apply Hb.
    by eapply list_elem_of_lookup_2.
  - intros r' [p Hp]. apply list_elem_of_lookup. rewrite Hperm.
    apply elem_of_seq. split; [lia|].
    assert (is_Some (name <$> players (script g).2 !! r')) as [s Hs].
    { rewrite <-Hnames, Hp. by eexists. }
    destruct (players (script g).2 !! r') as [p'|] eqn:Hp'; [|done].
    rewrite script_globals in Hp'. simpl in Hp'.
    rewrite module_init_players, lookup_map_seq_0 in Hp'.
    apply lookup_lt_Some in Hp'. rewrite created_length in Hp'. lia.
Qed.

Lemma partitions_share_no_strategy_witness :
  (client_strategies sample_globals !! 1%nat = Some 2%nat → 0 = 1)%nat
  ∧ is_Some (players sample_globals !! 2%nat).
Proof.
  pose proof (partitions_share_no_strategy (G := list nat) (Parameters := list Z)
                [ 1%nat; 0%nat ] [] 0%nat 1%nat 2%nat) as H.
  cbv zeta in H. destruct H as (H1 & H2 & _).
  - vm_compute. reflexivity.
  - split; [exact H1|exact H2].
Defined.

(** Making the client of a partition a second time returns the same
    client, bound to the same player, and changes no player: the strategy
    is seeded again with the same seed. *)
Theorem client_fn_again {G : Type} `{!Random G}
    {raw image P ndarray Parameters T : Type}
    `{!Libraries raw image P ndarray Parameters T}
    (context : Context) (st st1 : globals G) (c : FlowerClient image) :
  client_fn context st = Ok (c, st1) →
  ∃ st2, client_fn context st1 = Ok (c, st2)
         ∧ players st2 = players st1
         ∧ client_strategies st2 = client_strategies st1.
Proof.
  unfold client_fn, py_getitem.
  destruct (node_config context !! "partition-id") as [i|]; simpl; [|done].
  destruct (load_partition (fds st) i "train") as [d|] eqn:Hd; simpl; [|done].
  destruct (train_test_split d 0.1 SEED) as [tv|] eqn:Htv; simpl; [|done].
  destruct (py_index (client_strategies st) i) as [r|] eqn:Hr; simpl; [|done].
  intros [= <- <-]. simpl. rewrite Hd. simpl. rewrite Htv. simpl.
  rewrite Hr. simpl. eexists. split_and!; [done| |done]. simpl.
  rewrite alter_alter_eq. apply alter_ext. by intros [??] _.
Qed.

Lemma client_fn_again_witness :
  ∃ c st1 st2,
    client_fn (sample_context 1) sample_globals = Ok (c, st1)
    ∧ client_fn (sample_context 1) st1 = Ok (c, st2)
    ∧ players st2 = players st1.
Proof.
  destruct (client_fn (sample_context 1) sample_globals) as [[c st1]|e] eqn:Hc;
    [|vm_compute in Hc; discriminate Hc].
  destruct (client_fn_again (G := list nat) (Parameters := list Z)
              (sample_context 1) sample_globals st1 c Hc) as (st2 & H2 & Hp & _).
  by exists c, st1, st2.
Defined.

(** Whatever strategies [axelrod] supplies, the strategy "Random" takes
    part: in every run and after any calls of [client_fn], some partition
    id below [NUM_PARTITIONS] is bound to the player named "Random". *)
Theorem random_strategy_takes_part {G : Type} `{!Random G} `{!RandomLaws G}
    {raw image P ndarray Parameters T : Type}
    `{!Libraries raw image P ndarray Parameters T}
    (g : G) (contexts : list Context) :
  let st := serve contexts (script g).2 in
  ∃ i, (i < NUM_PARTITIONS st)%nat ∧ strategy_name st i = Some "Random".
Proof.
  intros st.
  destruct (serve_preserves contexts (script g).2) as (Hcs & Hn & Hnames & _).
  fold st in Hcs, Hn, Hnames.
  pose proof (client_strategies_Permutation g) as Hperm.
  assert (Hin : length memory_one ∈ client_strategies st).
  { rewrite Hcs, script_globals. simpl.
    rewrite Hperm. apply elem_of_seq. lia. }
  apply list_elem_of_lookup in Hin as [i Hi]. exists i. split.
  - apply lookup_lt_Some in Hi. rewrite Hn, script_globals. simpl.
    rewrite module_init_NUM_PARTITIONS.
    rewrite Hcs, script_globals in Hi. done.
  - unfold strategy_name. rewrite Hi. simpl. rewrite Hnames.
    rewrite script_globals. simpl.
    rewrite module_init_players, lookup_map_seq_0.
    rewrite lookup_app_r by (by rewrite length_map).
    by rewrite length_map, Nat.sub_diag.
Qed.

Lemma random_strategy_takes_part_witness :
  ∃ i, (i < NUM_PARTITIONS (serve [ sample_context 1 ] sample_globals))%nat
       ∧ strategy_name (serve [ sample_context 1 ] sample_globals) i
         = Some "Random".
Proof.
  exact (random_strategy_takes_part (G := list nat) (Parameters := list Z)
           [ 1%nat; 0%nat ] [ sample_context 1 ]).
Defined.

(** ** The images that are displayed *)

Lemma py_slice_to_sublist {A} (l : list A) (n : Z) : py_slice_to l n `sublist_of` l.
Proof. unfold py_slice_to. case_decide; apply sublist_take. Qed.

Lemma py_slice_to_length {A} (l : list A) (n : Z) :
  0 ≤ n → length (py_slice_to l n) = (Z.to_nat n `min` length l)%nat.
Proof.
  intros Hn. unfold py_slice_to. rewrite decide_False by lia. apply length_take.
Qed.

(** [visualise_n_random_examples] displays distinct images of the training
    set: its indices are valid, no index occurs twice, and for [n >= 0]
    there are [min(n, size)] of them. *)
Theorem visualised_indices_distinct {G : Type} `{!Random G} `{!RandomLaws G}
    (size : nat) (n : Z) (g : G) :
  let idx := (visualised_indices size n g).1 in
  NoDup idx
  ∧ Forall (λ i, (i < size)%nat) idx
  ∧ (0 ≤ n → length idx = (Z.to_nat n `min` size)%nat).
Proof.
  unfold visualised_indices.
  pose proof (random_shuffle_Permutation (seq 0 size) g) as Hperm.
  destruct (random_shuffle (seq 0 size) g) as [idx g']. simpl in *.
  pose proof (py_slice_to_sublist idx n) as Hsub.
  split_and!.
  - eapply sublist_NoDup; [|exact Hsub]. rewrite Hperm. apply NoDup_seq.
  - apply Forall_forall. intros i Hi.
    assert (i ∈ idx) as Hi' by (by eapply elem_of_sublist).
    rewrite Hperm in Hi'. apply elem_of_seq in Hi'. lia.
  - intros Hn. rewrite py_slice_to_length by done.
    by rewrite Hperm, length_seq.
Qed.

Lemma visualised_indices_distinct_witness :
  length (visualised_indices (G := list nat) 5 3 [ 1%nat; 2%nat ]).1 = 3%nat.
Proof.
  refine (proj2 (proj2 (visualised_indices_distinct (G := list nat)
                          5 3 [ 1%nat; 2%nat ])) _).
  lia.
Defined.

(** ** Training: [train] and [run_centralised] *)

#[global] Instance sample_training_laws : TrainingLaws float Z Z Z nat Z.
Proof. split. intros t l. apply reverse_Permutation. Qed.

Section TrainingFacts.
Context {F image P G O T : Type}.
Context `{!Arith F} `{!Torch F image P} `{!Training F image P G O T}.
Context `{!TrainingLaws F image P G O T}.

Lemma epoch_batches_empty (loader : DataLoader (image * Z)) (t : T) :
  dataset loader = [] → (epoch_batches loader t).1 = [].
Proof.
  intros He. unfold epoch_batches. destruct (shuffle loader).
  - pose proof (epoch_order_perm t (dataset loader)) as Hp.
    destruct (epoch_order t (dataset loader)) as [order t']. simpl in *.
    rewrite He in Hp. apply Permutation_nil_r in Hp. by subst.
  - by rewrite He.
Qed.

Lemma train_empty (w : trainer P G O T) (loader : DataLoader (image * Z))
    (epochs : Z) :
  dataset loader = [] →
  tr_net (train w loader epochs)
  = {| state_dict := state_dict (tr_net w); training := true |}
  ∧ tr_grad (train w loader epochs) = tr_grad w
  ∧ tr_opt (train w loader epochs) = tr_opt w.
Proof.
  intros He. unfold train.
  pose proof (epoch_batches_empty loader (tr_rng w) He) as Hb.
  destruct (epoch_batches loader (tr_rng w)) as [bs t]. simpl in Hb.
  by subst.
Qed.

(** The loop over the epochs prints one line for each epoch and calls
    [train] once for each. *)
Lemma train_epochs_fold (loader : DataLoader (image * Z)) (epochs : Z)
    (es : list Z) (out : list (printed F)) (w : trainer P G O T) :
  fold_left (λ '(out, w) e, (out ++ [ epoch_line e ], train w loader epochs))
            es (out, w)
  = (out ++ map epoch_line es,
     fold_left (λ w (_ : Z), train w loader epochs) es w).
Proof.
  revert out w. induction es as [|e es IH]; intros out w; simpl.
  - by rewrite app_nil_r.
  - by rewrite IH, <-app_assoc.
Qed.

Lemma train_epochs_unfold (loader : DataLoader (image * Z)) (epochs : Z)
    (w : trainer P G O T) :
  train_epochs loader epochs w
  = (map epoch_line (seqZ 0 epochs),
     fold_left (λ w (_ : Z), train w loader epochs) (seqZ 0 epochs) w).
Proof. unfold train_epochs. by rewrite train_epochs_fold. Qed.

Lemma passes_empty (loader : DataLoader (image * Z)) (epochs : Z)
    (es : list Z) (w : trainer P G O T) :
  dataset loader = [] → training (tr_net w) = true →
  tr_net (fold_left (λ w (_ : Z), train w loader epochs) es w) = tr_net w.
Proof.
  intros He. revert w. induction es as [|e es IH]; intros w Hw; [done|].
  simpl. destruct (train_empty w loader epochs He) as (Hnet & _ & _).
  rewrite IH; rewrite Hnet; [|done].
  destruct w as [[p b] g o t]. simpl in *. by subst.
Qed.

End TrainingFacts.

(** On a loader over an empty dataset [train] makes no step: the
    [state_dict] of the network, the gradients and the optimizer are as
    before, and the network is left in training mode. *)
Theorem train_empty_loader {F image P G O T : Type}
    `{!Torch F image P} `{!Training F image P G O T}
    `{!TrainingLaws F image P G O T}
    (w : trainer P G O T) (trainloader : DataLoader (image * Z)) (epochs : Z) :
  dataset trainloader = [] →
  state_dict (tr_net (train w trainloader epochs)) = state_dict (tr_net w)
  ∧ training (tr_net (train w trainloader epochs)) = true
  ∧ tr_grad (train w trainloader epochs) = tr_grad w
  ∧ tr_opt (train w trainloader epochs) = tr_opt w.
Proof.
  intros He. destruct (train_empty w trainloader epochs He) as (-> & -> & ->).
  done.
Qed.

Lemma train_empty_loader_witness :
  let w := {| tr_net := {| state_dict := 3; training := false |};
              tr_grad := Some 7; tr_opt := 4%nat; tr_rng := 0 |} in
  let trainloader := {| dataset := []; batch_size := 32; shuffle := true |} in
  state_dict (tr_net (train (F := float) w trainloader 5)) = 3
  ∧ training (tr_net (train (F := float) w trainloader 5)) = true
  ∧ tr_grad (train (F := float) w trainloader 5) = Some 7
  ∧ tr_opt (train (F := float) w trainloader 5) = 4%nat.
Proof.
  intros w trainloader.
  exact (train_empty_loader (F := float) w trainloader 5 eq_refl).
Defined.



(** When no epoch is asked for, or the training set is empty,
    [run_centralised] evaluates the model as [Net(num_classes=10)]
    initialised it: what it raises or prints after the epoch lines, and the
    model it leaves, are those of [test] on the new model. *)
Theorem run_centralised_without_training
    {F raw image P ndarray Parameters G O T : Type}
    `{!Arith F} `{!Torch F image P}
    `{!Training F image P G O T} `{!TrainingLaws F image P G O T}
    `{!Libraries raw image P ndarray Parameters T}
    (trainloader testloader : DataLoader (image * Z)) (epochs : Z)
    (lr momentum : F) (t : T) (grad : bool) :
  epochs ≤ 0 ∨ dataset trainloader = [] →
  let model := {| state_dict := (Net 10 t).1; training := true |} in
  let evaluation := test testloader {| net := model; grad_enabled := grad |} in
  let lines := map epoch_line (seqZ 0 epochs) in
  run_centralised trainloader testloader epochs lr momentum t grad
  = match evaluation.1 with
    | Ok (loss, accuracy) =>
        (Ok (), lines ++ [ Named "loss" loss; Named "accuracy" accuracy ],
         net evaluation.2)
    | Raise e => (Raise e, lines, net evaluation.2)
    end.
Proof.
  intros Hno model evaluation lines. subst model evaluation lines.
  unfold run_centralised. destruct (Net 10 t) as [p t1].
  rewrite train_epochs_unfold. cbv zeta.
  match goal with
  | |- context [ fold_left ?f ?es ?w0 ] =>
      assert (tr_net (fold_left f es w0) = tr_net w0) as ->
  end.
  { destruct Hno as [Hle|He].
    - unfold seqZ. replace (Z.to_nat epochs) with 0%nat by lia. done.
    - by rewrite passes_empty. }
  simpl. by destruct (test testloader _) as [[[loss accuracy]|e] s].
Qed.

Lemma run_centralised_without_training_witness :
  run_centralised (F := float) (Parameters := list Z)
    {| dataset := []; batch_size := 32; shuffle := true |}
    {| dataset := [ (1, 1); (5, 0); (7, 1) ]; batch_size := 2; shuffle := false |}
    2 0.01%float 0.9%float 0 true
  = (Ok (),
     [ Text "Training epoch 0 ..."; Text "Training epoch 1 ...";
       Named "loss" 0.5%float; Named "accuracy" 0.33333333333333331%float ],
     {| state_dict := 10; training := false |}).
Proof.
  rewrite (run_centralised_without_training (F := float) (Parameters := list Z)
    {| dataset := []; batch_size := 32; shuffle := true |}
    {| dataset := [ (1, 1); (5, 0); (7, 1) ]; batch_size := 2; shuffle := false |}
    2 0.01%float 0.9%float 0 true (or_intror eq_refl)).
  vm_compute. reflexivity.
Defined.
